(** * Elfsod / ADOS: fetch orchestration, metrics engine and chat front end

    Shallow embedding of
    - the metrics engine and the fetch orchestrator of the ADOS backend
      (services not shipped with the front end: modelled from the spec and
      from the metrics notes of the backend README),
    - [handleSend] of [pages/CommandCenter.tsx] and the handlers of
      [components/ChatInput.tsx],
    - [handleCardClick] of the Home page,
    - [formatContent] of [MessageBubble], the login state, logout and
      highlighting of [Navigation], and the tile grid of [TilesPreview]. *)

From Stdlib Require Import List String Ascii Bool Arith Lia ZArith QArith.
From Stdlib Require Import Sorting.Sorted Sorting.Permutation QArith.Qminmax Lqa.
Import ListNotations.
Open Scope string_scope.
Open Scope nat_scope.

(* ------------------------------------------------------------------ *)
(** ** Data model *)

Inductive Platform := Google | Meta | LinkedIn | Reddit.

Definition platforms : list Platform := [Google; Meta; LinkedIn; Reddit].

Definition platform_eqb (p q : Platform) : bool :=
  match p, q with
  | Google, Google | Meta, Meta | LinkedIn, LinkedIn | Reddit, Reddit => true
  | _, _ => false
  end.

Inductive MediaFormat := Image | Video | Carousel.

Record Ad := mkAd {
  ad_id : nat;
  competitor_id : nat;
  platform : Platform;
  external_ad_id : string;
  headline : string;
  description : string;
  destination_url : string;
  media_format : MediaFormat;
  raw_payload : string;
  impressions : option nat;
  first_seen : nat;
  last_seen : nat;
  is_active : bool
}.

(** An estimated metric: a number, or the explicit [unavailable] marker. *)
Inductive Estimate := Available (q : Q) | Unavailable.

(* ------------------------------------------------------------------ *)
(** ** Metrics engine *)
Module Metrics.

(** Modelled from the spec: the single versioned table of estimation
    constants consulted by the metrics engine (the backend's metrics
    service is not part of the sources).  CTR figures are percentages. *)
Record EstimationTable := mkTable {
  cpm_table : Platform -> Q;
  cpc_table : Platform -> Q;
  ctr_platform_adjustment : Platform -> Q;
  text_completeness_threshold : nat
}.

(** The constants of the backend README: [cpm_estimates] and
    [cpc_estimates]; the CTR adjustment follows "Google higher, LinkedIn
    lower" of the same notes. *)
Definition default_table : EstimationTable := {|
  cpm_table := fun p => match p with
    | Google => 5 # 2 | Meta => 5 # 1 | LinkedIn => 8 # 1 | Reddit => 3 # 2 end;
  cpc_table := fun p => match p with
    | Google => 5 # 2 | Meta => 6 # 5 | LinkedIn => 5 # 1 | Reddit => 4 # 5 end;
  ctr_platform_adjustment := fun p => match p with
    | Google => 1 # 2 | LinkedIn => -1 # 2 | _ => 0%Q end;
  text_completeness_threshold := 50
|}.

Section Engine.
Variable T : EstimationTable.

(** Modelled from the spec: spend estimation of the metrics service.
    Spend = impressions/1000 * platform CPM; [unavailable] without
    impressions. *)
Definition spend (a : Ad) : Estimate :=
  match impressions a with
  | Some i => Available (Qmult (Qdiv (inject_Z (Z.of_nat i)) 1000)
                               (cpm_table T (platform a)))
  | None => Unavailable
  end.

(** Modelled from the spec: CPM and CPC lookups of the metrics service. *)
Definition cpm (a : Ad) : Q := cpm_table T (platform a).
Definition cpc (a : Ad) : Q := cpc_table T (platform a).

(** Modelled from the spec: frequency estimation of the metrics service.
    Frequency = (impressions/1000) / active ad count, guarded. *)
Definition frequency (active_count : nat) (a : Ad) : Estimate :=
  match impressions a, active_count with
  | Some i, S _ => Available (Qdiv (Qdiv (inject_Z (Z.of_nat i)) 1000)
                                   (inject_Z (Z.of_nat active_count)))
  | _, _ => Unavailable
  end.

Definition clamp (lo hi x : Q) : Q := Qmax lo (Qmin hi x).

Definition ctr_min : Q := 1 # 10.
Definition ctr_max : Q := 15.

Definition ctr_raw (a : Ad) : Q :=
  (2 + ctr_platform_adjustment T (platform a)
    + (match media_format a with Video => 1 # 2 | _ => 0%Q end)
    + (if Nat.ltb (text_completeness_threshold T)
          (String.length (headline a) + String.length (description a))%nat
       then 3 # 10 else 0%Q))%Q.

(** Modelled from the spec: CTR estimation of the metrics service. *)
Definition ctr (a : Ad) : Q := clamp ctr_min ctr_max (ctr_raw a).

End Engine.

(** Substring test on strings. *)
Fixpoint contains (k s : string) : bool :=
  match s with
  | EmptyString => String.eqb k EmptyString
  | String _ s' => String.prefix k s || contains k s'
  end.

Inductive FunnelStage := Awareness | Consideration | Conversion.

Definition awareness_words := ["new"; "introducing"; "discover"].
Definition consideration_words := ["compare"; "features"; "benefits"].
Definition conversion_words := ["buy"; "purchase"; "order now"].

Definition keyword_hits (words : list string) (text : string) : nat :=
  List.length (filter (fun k => contains k text) words).

Definition ad_text (a : Ad) : string := headline a ++ " " ++ description a.

Definition stage_scores (a : Ad) : list (FunnelStage * nat) :=
  [(Awareness, keyword_hits awareness_words (ad_text a));
   (Consideration, keyword_hits consideration_words (ad_text a));
   (Conversion, keyword_hits conversion_words (ad_text a))].

(** First maximum of a scored list: a later entry replaces the current
    best only with a strictly higher count. *)
Fixpoint first_max (best : FunnelStage * nat) (l : list (FunnelStage * nat))
  : FunnelStage * nat :=
  match l with
  | [] => best
  | x :: l' => if snd best <? snd x then first_max x l' else first_max best l'
  end.

(** Modelled from the spec: funnel-stage detection of the metrics service. *)
Definition funnel_stage (a : Ad) : FunnelStage :=
  match stage_scores a with
  | [] => Awareness
  | x :: l => fst (first_max x l)
  end.

(** One entry of the metrics bundle of a competitor. *)
Record AdMetrics := mkAdMetrics {
  m_ad_id : nat;
  m_spend : Estimate;
  m_cpm : Q;
  m_cpc : Q;
  m_ctr : Q;
  m_frequency : Estimate;
  m_funnel_stage : FunnelStage
}.

Definition active_ad_count (c : nat) (store : list Ad) : nat :=
  List.length (filter (fun a => Nat.eqb (competitor_id a) c && is_active a) store).

Definition ad_metrics (T : EstimationTable) (n : nat) (a : Ad) : AdMetrics := {|
  m_ad_id := ad_id a;
  m_spend := spend T a;
  m_cpm := cpm T a;
  m_cpc := cpc T a;
  m_ctr := ctr T a;
  m_frequency := frequency n a;
  m_funnel_stage := funnel_stage a
|}.

(** [getMetrics competitorId]: recomputed from the stored ads. *)
Definition get_metrics (T : EstimationTable) (c : nat) (store : list Ad)
  : list AdMetrics :=
  map (ad_metrics T (active_ad_count c store))
      (filter (fun a => Nat.eqb (competitor_id a) c) store).

End Metrics.

(* ------------------------------------------------------------------ *)
(** ** Fetch orchestrator *)
Module Orchestrator.

(** A normalized ad as returned by a platform adapter. *)
Record Candidate := mkCandidate {
  c_external_ad_id : string;
  c_headline : string;
  c_description : string;
  c_destination_url : string;
  c_media_format : MediaFormat;
  c_raw_payload : string;
  c_impressions : option nat
}.

Inductive ErrorKind :=
  AdapterTimeout | AdapterAuthFailure | AdapterMalformedResponse.

Inductive FetchResult :=
| Ok (ads : list Candidate)
| PartialOk (ads : list Candidate) (warning : string)
| Error (kind : ErrorKind) (message : string).

(** Modelled from the spec: the adapters' outcomes of one run, one per
    known platform (the adapters and [ad_fetcher.py] are not part of the
    sources). *)
Definition Upstream := Platform -> FetchResult.

Definition successful_ads (r : FetchResult) : option (list Candidate) :=
  match r with
  | Ok l | PartialOk l _ => Some l
  | Error _ _ => None
  end.

(** The dedup key (competitor, platform, external-ad-id). *)
Definition key_matches (c : nat) (p : Platform) (ext : string) (a : Ad) : bool :=
  Nat.eqb (competitor_id a) c && platform_eqb (platform a) p
  && String.eqb (external_ad_id a) ext.

Definition new_ad (id now c : nat) (p : Platform) (k : Candidate) : Ad := {|
  ad_id := id; competitor_id := c; platform := p;
  external_ad_id := c_external_ad_id k;
  headline := c_headline k; description := c_description k;
  destination_url := c_destination_url k; media_format := c_media_format k;
  raw_payload := c_raw_payload k; impressions := c_impressions k;
  first_seen := now; last_seen := now; is_active := true
|}.

(** Re-observation: bump last-seen, reactivate, overwrite the display
    fields, keep everything else (first-seen in particular). *)
Definition refresh (now : nat) (k : Candidate) (a : Ad) : Ad := {|
  ad_id := ad_id a; competitor_id := competitor_id a; platform := platform a;
  external_ad_id := external_ad_id a;
  headline := c_headline k; description := c_description k;
  destination_url := c_destination_url k; media_format := media_format a;
  raw_payload := raw_payload a; impressions := c_impressions k;
  first_seen := first_seen a; last_seen := now; is_active := true
|}.

(** Modelled from the spec: dedup & upsert of one candidate
    ([ad_fetcher.py]). *)
Definition upsert (now c : nat) (p : Platform) (k : Candidate) (store : list Ad)
  : list Ad :=
  if existsb (key_matches c p (c_external_ad_id k)) store
  then map (fun a => if key_matches c p (c_external_ad_id k) a
                     then refresh now k a else a) store
  else store ++ [new_ad (S (List.length store)) now c p k].

(** The candidates of the successful platforms, tagged with their platform. *)
Definition observed (R : Upstream) : list (Platform * Candidate) :=
  flat_map (fun p => match successful_ads (R p) with
                     | Some l => map (pair p) l
                     | None => []
                     end) platforms.

Definition upsert_all (now c : nat) (ks : list (Platform * Candidate))
  (store : list Ad) : list Ad :=
  fold_left (fun s pk => upsert now c (fst pk) (snd pk) s) ks store.

Definition deactivate (a : Ad) : Ad := {|
  ad_id := ad_id a; competitor_id := competitor_id a; platform := platform a;
  external_ad_id := external_ad_id a;
  headline := headline a; description := description a;
  destination_url := destination_url a; media_format := media_format a;
  raw_payload := raw_payload a; impressions := impressions a;
  first_seen := first_seen a; last_seen := last_seen a; is_active := false
|}.

(** Modelled from the spec: step 5 of [runFetch]; an ad of this competitor on a platform that succeeded and whose
    external id is not in that platform's result set becomes inactive. *)
Definition mark_one (c : nat) (R : Upstream) (a : Ad) : Ad :=
  if Nat.eqb (competitor_id a) c then
    match successful_ads (R (platform a)) with
    | Some l => if existsb (fun k => String.eqb (c_external_ad_id k)
                                                (external_ad_id a)) l
                then a else deactivate a
    | None => a
    end
  else a.

Definition mark_inactive (c : nat) (R : Upstream) (store : list Ad) : list Ad :=
  map (mark_one c R) store.

Inductive JobStatus := Pending | Running | Completed | Partial | Failed.
Inductive OutcomeStatus := OutcomeOk | OutcomeError (kind : ErrorKind) (detail : string).

Record Outcome := mkOutcome {
  o_platform : Platform; o_status : OutcomeStatus; o_ads_returned : nat }.

Record FetchJob := mkFetchJob {
  job_competitor : nat; started_at : nat; finished_at : option nat;
  job_status : JobStatus; outcomes : list Outcome }.

Definition outcome_of (R : Upstream) (p : Platform) : Outcome :=
  match R p with
  | Ok l | PartialOk l _ => mkOutcome p OutcomeOk (List.length l)
  | Error e m => mkOutcome p (OutcomeError e m) 0
  end.

Definition errored (o : Outcome) : bool :=
  match o_status o with OutcomeOk => false | OutcomeError _ _ => true end.

Definition overall_status (os : list Outcome) : JobStatus :=
  if forallb errored os then Failed
  else if existsb errored os then Partial else Completed.

(** Modelled from the spec: [runFetch competitorId] ([ad_fetcher.py]); upsert every successful platform's ads, then
    mark the vanished ones inactive; returns the job and the new store. *)
Definition runFetch (now c : nat) (R : Upstream) (store : list Ad)
  : FetchJob * list Ad :=
  let os := map (outcome_of R) platforms in
  let store' := mark_inactive c R (upsert_all now c (observed R) store) in
  (mkFetchJob c now (Some now) (overall_status os) os, store').

(** An ad of this competitor present in a successful platform's result set
    of the run. *)
Definition seen_in_run (c : nat) (R : Upstream) (a : Ad) : bool :=
  Nat.eqb (competitor_id a) c &&
  match successful_ads (R (platform a)) with
  | Some l => existsb (fun k => String.eqb (c_external_ad_id k)
                                           (external_ad_id a)) l
  | None => false
  end.

Definition set_last_seen (now : nat) (a : Ad) : Ad := {|
  ad_id := ad_id a; competitor_id := competitor_id a; platform := platform a;
  external_ad_id := external_ad_id a;
  headline := headline a; description := description a;
  destination_url := destination_url a; media_format := media_format a;
  raw_payload := raw_payload a; impressions := impressions a;
  first_seen := first_seen a; last_seen := now; is_active := is_active a
|}.

(** The last candidate of a run carrying a row's key, if any. *)
Definition last_match (c : nat) (ks : list (Platform * Candidate)) (a : Ad)
  : option Candidate :=
  fold_left (fun acc pk => if key_matches c (fst pk) (c_external_ad_id (snd pk)) a
                           then Some (snd pk) else acc) ks None.

Definition apply_last (now c : nat) (ks : list (Platform * Candidate)) (a : Ad) : Ad :=
  match last_match c ks a with Some k => refresh now k a | None => a end.

End Orchestrator.

(* ------------------------------------------------------------------ *)
(** ** Strings as JavaScript sees them *)
Module Js.

(** Strings are the UTF-8 encoding of the JavaScript string. The white
    space [String.prototype.trim] and [parseFloat] skip (WhiteSpace and
    LineTerminator): TAB, LF, VT, FF, CR, SPACE, U+00A0, U+1680,
    U+2000-U+200A, U+2028, U+2029, U+202F, U+205F, U+3000 and U+FEFF, as
    their UTF-8 byte sequences. *)
Definition utf8_spaces : list (list ascii) :=
  map (map ascii_of_nat)
    [[9]; [10]; [11]; [12]; [13]; [32];
     [194; 160];                                        (* U+00A0 *)
     [225; 154; 128];                                   (* U+1680 *)
     [226; 128; 128]; [226; 128; 129]; [226; 128; 130]; (* U+2000.. *)
     [226; 128; 131]; [226; 128; 132]; [226; 128; 133];
     [226; 128; 134]; [226; 128; 135]; [226; 128; 136];
     [226; 128; 137]; [226; 128; 138];                  (* ..U+200A *)
     [226; 128; 168]; [226; 128; 169];                  (* U+2028, U+2029 *)
     [226; 128; 175];                                   (* U+202F *)
     [226; 129; 159];                                   (* U+205F *)
     [227; 128; 128];                                   (* U+3000 *)
     [239; 187; 191]].                                  (* U+FEFF *)

Fixpoint is_prefix (p l : list ascii) : bool :=
  match p, l with
  | [], _ => true
  | a :: p', b :: l' => Ascii.eqb a b && is_prefix p' l'
  | _ :: _, [] => false
  end.

(** Drop the leading characters whose encodings are in [ws]. *)
Fixpoint drop_spaces_with (ws : list (list ascii)) (fuel : nat) (l : list ascii)
  : list ascii :=
  match fuel with
  | 0 => l
  | S f =>
      match find (fun w => is_prefix w l) ws with
      | Some w => drop_spaces_with ws f (skipn (List.length w) l)
      | None => l
      end
  end.

Definition drop_spaces (l : list ascii) : list ascii :=
  drop_spaces_with utf8_spaces (List.length l) l.

(** [String.prototype.trim]: leading white space, then trailing white space
    (matched on the reversed bytes). *)
Definition trim (s : string) : string :=
  let l := drop_spaces (list_ascii_of_string s) in
  let r := rev l in
  string_of_list_ascii
    (rev (drop_spaces_with (map (@rev ascii) utf8_spaces) (List.length r) r)).

(** Truthiness of a string, as in [!s] and [s || t]. *)
Definition str_truthy (s : string) : bool := negb (String.eqb s "").

(** The JavaScript values a JSON field can hold. *)
Inductive JsVal :=
| JStr (s : string)
| JNum (z : Z)
| JBool (b : bool)
| JNull
| JObj.

Definition truthy (v : JsVal) : bool :=
  match v with
  | JStr s => str_truthy s
  | JNum z => negb (Z.eqb z 0)
  | JBool b => b
  | JNull => false
  | JObj => true
  end.

(** [parseFloat] on a decimal prefix (optional sign, digits, optional
    fraction) after leading white space; [None] is NaN. Exponents and
    [Infinity] are not read: the ratings it is applied to are plain
    decimals. *)
Fixpoint digits (l : list ascii) (acc : Z) (n : nat) : Z * nat * list ascii :=
  match l with
  | c :: l' =>
      let d := nat_of_ascii c in
      if (48 <=? d) && (d <=? 57)
      then digits l' (acc * 10 + Z.of_nat (d - 48)) (S n)
      else (acc, n, l)
  | [] => (acc, n, [])
  end.

Definition parseFloat (s : string) : option Q :=
  let l := drop_spaces (list_ascii_of_string s) in
  let '(sign, l) := match l with
                    | "-"%char :: r => ((-1)%Z, r)
                    | "+"%char :: r => (1%Z, r)
                    | _ => (1%Z, l)
                    end in
  let '(ip, ni, rest) := digits l 0%Z 0 in
  match rest with
  | "."%char :: r =>
      let '(fp, nf, _) := digits r 0%Z 0 in
      if Nat.eqb (ni + nf) 0 then None
      else Some (Qmult (inject_Z sign)
                       (Qplus (inject_Z ip) (Qmake fp (Pos.of_nat (10 ^ nf)))))
  | _ => if Nat.eqb ni 0 then None else Some (inject_Z (sign * ip))
  end.

End Js.

(* ------------------------------------------------------------------ *)
(** ** [pages/CommandCenter.tsx]: [handleSend] *)
Module Chat.
Import Js.

Inductive MsgType := Bot | User.

Record Message := mkMessage {
  msg_id : nat; msg_type : MsgType; content : JsVal; timestamp : string }.

(** The component state: [message], [isLoading], [messages]. *)
Record ChatState := mkChatState {
  message : string; isLoading : bool; messages : list Message }.

Definition fallback_text : string :=
  "I apologize, but I couldn't generate a response.".
Definition error_text : string :=
  "I apologize, but I encountered an error connecting to the server. Please check your connection and try again.".

(** The parsed JSON body, [response.json()]. *)
Inductive Json :=
| JsonNull                              (* [data.reply] throws *)
| JsonObject (reply : option JsVal)     (* [reply] field, if present *)
| JsonPrimitive (v : JsVal).            (* [data.reply] is undefined *)

(** How the [fetch] settles. *)
Inductive FetchOutcome :=
| NetworkError
| Response (ok : bool) (body : option Json).  (* [None]: invalid JSON *)

(** [textOverride || message]. *)
Definition text_to_send (textOverride : option string) (message : string) : string :=
  match textOverride with
  | Some t => if str_truthy t then t else message
  | None => message
  end.

Inductive SendStart :=
| NoOp
| Started (textToSend action : string) (st : ChatState).

(** The synchronous part of [handleSend], up to the [await fetch]. *)
Definition handle_send_start (now : nat) (ts : string)
  (textOverride : option string) (actionOverride : string) (st : ChatState)
  : SendStart :=
  let textToSend := text_to_send textOverride (message st) in
  if negb (str_truthy (trim textToSend)) || isLoading st then NoOp
  else
    let userMessage := mkMessage now User (JStr textToSend) ts in
    Started textToSend actionOverride
      {| message := match textOverride with
                    | Some t => if str_truthy t then message st else ""
                    | None => ""
                    end;
         isLoading := true;
         messages := messages st ++ [userMessage] |}.

(** The content of the bot message once the request settles: the [try]
    block, or the [catch] block when anything in it throws. *)
Definition bot_content (o : FetchOutcome) : JsVal :=
  match o with
  | NetworkError => JStr error_text
  | Response false _ => JStr error_text
  | Response true None => JStr error_text
  | Response true (Some JsonNull) => JStr error_text
  | Response true (Some (JsonObject (Some v))) =>
      if truthy v then v else JStr fallback_text
  | Response true (Some (JsonObject None)) => JStr fallback_text
  | Response true (Some (JsonPrimitive _)) => JStr fallback_text
  end.

(** The rest of [handleSend]: append the bot message, then [finally]. *)
Definition handle_send_settle (now : nat) (ts : string) (o : FetchOutcome)
  (st : ChatState) : ChatState :=
  {| message := message st;
     isLoading := false;
     messages := messages st ++ [mkMessage (S now) Bot (bot_content o) ts] |}.

(** [components/ChatInput.tsx]: does the Enter handler call [onSend]? *)
Definition chat_input_key_press (key : string) (shiftKey : bool)
  (value : string) (isLoading : bool) : bool :=
  if String.eqb key "Enter" && negb shiftKey then
    str_truthy (trim value) && negb isLoading
  else false.

Definition send_button_disabled (value : string) (isLoading : bool) : bool :=
  negb (str_truthy (trim value)) || isLoading.

(** A click on the send button reaches [onSend] unless it is disabled. *)
Definition chat_input_click_sends (value : string) (isLoading : bool) : bool :=
  negb (send_button_disabled value isLoading).

(** [pages/CommandCenter.tsx], the input's key handler:
    [e.key === 'Enter' && handleSend()]; the event's shift flag is not read. *)
Definition command_center_key_press (now : nat) (ts : string) (key : string)
  (shiftKey : bool) (st : ChatState) : SendStart :=
  if String.eqb key "Enter" then handle_send_start now ts None "chat" st else NoOp.

End Chat.

(* ------------------------------------------------------------------ *)
(** ** Home page: [handleCardClick] *)
Module Home.
Import Js.

Record SampleAd := mkSampleAd {
  id : nat; title : string; ad_type : string; rating : string;
  votes : string; tags : list string; genre : string }.

Definition allAds : list SampleAd := [
  mkSampleAd 101 "Nike: Just Do It Campaign" "PROMOTED" "4.9" "256K"
             ["Athletic"; "Motivational"] "Sports";
  mkSampleAd 201 "McDonald's: I'm Lovin' It" "PROMOTED" "4.6" "298K"
             ["Fast Food"; "Family"] "Food";
  mkSampleAd 301 "Zara: Fast Fashion Leader" "PROMOTED" "4.7" "289K"
             ["Trendy"; "Affordable"] "Fashion"].

(** [parseFloat(b.rating) - parseFloat(a.rating)]; NaN counts as 0. *)
Definition compare_rating (a b : SampleAd) : Q :=
  match parseFloat (rating b), parseFloat (rating a) with
  | Some qb, Some qa => Qminus qb qa
  | _, _ => 0%Q
  end.

(** A stable sort by a comparator: [x] goes before [y] exactly when
    [compare x y < 0]. *)
Fixpoint insert_by (cmp : SampleAd -> SampleAd -> Q) (x : SampleAd)
  (l : list SampleAd) : list SampleAd :=
  match l with
  | [] => [x]
  | y :: l' => if Qlt_le_dec (cmp x y) 0 then x :: y :: l'
               else y :: insert_by cmp x l'
  end.

Definition sort_by (cmp : SampleAd -> SampleAd -> Q) (l : list SampleAd)
  : list SampleAd :=
  fold_left (fun acc x => insert_by cmp x acc) l [].

(** The numeric value of a rating, [parseFloat(rating)] (0 for NaN). *)
Definition rating_num (a : SampleAd) : Q :=
  match parseFloat (rating a) with Some q => q | None => 0%Q end.

Definition handleCardClick (ad : SampleAd) : list SampleAd :=
  firstn 3 (sort_by compare_rating
              (filter (fun item => String.eqb (genre item) (genre ad)
                                   && negb (Nat.eqb (id item) (id ad))) allAds)).

End Home.

(* ------------------------------------------------------------------ *)
(** ** [String.prototype.split] with a one-character separator *)
Module Split.

(** [s.split(sep)]: the pieces between separators, [[""]] on [""]. *)
Fixpoint split_char (sep : ascii) (s : string) : list string :=
  match s with
  | EmptyString => [""]
  | String ch s' =>
      if Ascii.eqb ch sep then "" :: split_char sep s'
      else match split_char sep s' with
           | w :: ws => String ch w :: ws
           | [] => [String ch ""]
           end
  end.

(** [ws.join(sep)]. *)
Fixpoint join (sep : ascii) (ws : list string) : string :=
  match ws with
  | [] => ""
  | [w] => w
  | w :: ws' => w ++ String sep (join sep ws')
  end.

Fixpoint count_char (ch : ascii) (s : string) : nat :=
  match s with
  | EmptyString => 0
  | String c s' => (if Ascii.eqb c ch then 1 else 0) + count_char ch s'
  end.

Definition newline : ascii := ascii_of_nat 10.
Definition space : ascii := ascii_of_nat 32.

End Split.

(* ------------------------------------------------------------------ *)
(** ** [components/MessageBubble.tsx] *)
Module Bubble.
Import Chat.

(** [formatContent]: one line (span) per piece of [content.split('\n')]. *)
Definition formatContent (content : string) : list string :=
  Split.split_char Split.newline content.

(** [isBot] selects the side and avatar of the bubble. *)
Definition isBot (m : Message) : bool :=
  match msg_type m with Bot => true | User => false end.

End Bubble.

(* ------------------------------------------------------------------ *)
(** ** [components/Navigation] (part_002, and its copy in TilesPreview.tsx) *)
Module Navigation.
Import Js.

(** [localStorage] as an association list of string items. *)
Definition Storage := list (string * string).

Definition getItem (k : string) (ls : Storage) : option string :=
  match find (fun kv => String.eqb (fst kv) k) ls with
  | Some kv => Some (snd kv)
  | None => None
  end.

Definition removeItem (k : string) (ls : Storage) : Storage :=
  filter (fun kv => negb (String.eqb (fst kv) k)) ls.

Definition setItem (k v : string) (ls : Storage) : Storage :=
  (k, v) :: removeItem k ls.

(** The value [JSON.parse(userStr)] returns; [None] of the parser is a
    [SyntaxError]. *)
Inductive UserJson :=
| UNull
| UObject (name username : option JsVal)
| UOther.

Record NavState := mkNavState {
  isMobileMenuOpen : bool;
  isLoggedIn : bool;
  userName : option JsVal;     (* [None] is [null] *)
  route : string                (* the last [navigate] target *)
}.

Definition or_default (v : option JsVal) (d : JsVal) : JsVal :=
  match v with Some x => if truthy x then x else d | None => d end.

(** [user.name || user.username || 'User'], inside the [try]. *)
Definition user_display_name (parsed : option UserJson) : JsVal :=
  match parsed with
  | Some (UObject n un) => or_default n (or_default un (JStr "User"))
  | Some UNull => JStr "User"          (* [null.name] throws: [catch] *)
  | Some UOther => JStr "User"         (* primitives have no [name] *)
  | None => JStr "User"                (* [JSON.parse] throws: [catch] *)
  end.

Definition set_login (b : bool) (n : option JsVal) (st : NavState) : NavState :=
  mkNavState (isMobileMenuOpen st) b n (route st).

(** [checkAuthStatus]; [parse] is [JSON.parse]. *)
Definition checkAuthStatus (parse : string -> option UserJson) (ls : Storage)
  (st : NavState) : NavState :=
  match getItem "token" ls with
  | Some token =>
      if str_truthy token then
        match getItem "user" ls with
        | Some userStr =>
            if str_truthy userStr
            then set_login true (Some (user_display_name (parse userStr))) st
            else set_login true (userName st) st
        | None => set_login true (userName st) st
        end
      else set_login false None st
  | None => set_login false None st
  end.

(** [handleLogout]: clears the two items, resets the state, goes home. *)
Definition handleLogout (ls : Storage) (st : NavState) : Storage * NavState :=
  (removeItem "user" (removeItem "token" ls),
   mkNavState false false None "/").

Definition handleNavClick (link : string) (st : NavState) : NavState :=
  mkNavState false (isLoggedIn st) (userName st) link.

Definition navItems : list (string * string) :=
  [("Home", "/home"); ("Command Center", "/command-center");
   ("Targeting Intel", "/targeting_intel"); ("Ad Surveillance", "/ad-surveillance");
   ("Auto Create", "/auto-create"); ("Reverse Engineering", "/video-analysis")].

(** [location.pathname === item.link]. *)
Definition isActive (pathname : string) (item : string * string) : bool :=
  String.eqb pathname (snd item).

Inductive FirstName := FNull | FName (s : string) | FThrows.

(** [userName ? userName.split(' ')[0] : null]. *)
Definition firstName (userName : option JsVal) : FirstName :=
  match userName with
  | None => FNull
  | Some v =>
      if truthy v then
        match v with
        | JStr s => FName (hd "" (Split.split_char Split.space s))
        | _ => FThrows
        end
      else FNull
  end.

End Navigation.

(* ------------------------------------------------------------------ *)
(** ** [components/TilesPreview.tsx] *)
Module Tiles.

Definition grid_rows := 3.
Definition grid_cols := 6.

Definition GRADIENT_CELLS : list (nat * nat) := [(0, 4); (1, 2); (2, 1); (2, 4)].

Definition GRADIENT_LABELS : list (string * string) :=
  [("Discover", "Ad Inventory"); ("Design", "Creative Ads");
   ("Book", "Campaign"); ("Measure", "Impact")].

(** Template-literal rendering of a number, [`${n}`]. *)
Fixpoint dec_aux (fuel n : nat) (acc : string) : string :=
  match fuel with
  | 0 => acc
  | S f =>
      let acc' := String (ascii_of_nat (48 + n mod 10)) acc in
      if n <? 10 then acc' else dec_aux f (n / 10) acc'
  end.

Definition string_of_nat (n : nat) : string := dec_aux (S n) n "".

Definition tile_file (i : nat) : string :=
  let idx := i + 1 in
  if idx <=? 9 then "tile-" ++ string_of_nat idx ++ ".jpg"
  else "tile-" ++ string_of_nat idx ++ ".jpeg".

(** [discoverImages]: [new URL('../assets/tiles/' + file, import.meta.url)]
    is [base ++ "assets/tiles/" ++ file], [base] being the URL of the
    directory above the module's. *)
Definition discoverImages (base : string) : list string :=
  map (fun i => base ++ "assets/tiles/" ++ tile_file i) (seq 0 27).

Definition same_cell (a b : nat * nat) : bool :=
  Nat.eqb (fst a) (fst b) && Nat.eqb (snd a) (snd b).

(** The two nested loops of the grid initialisation. *)
Definition positions : list (nat * nat) :=
  flat_map (fun r => flat_map (fun c =>
      if existsb (same_cell (r, c)) GRADIENT_CELLS then [] else [(r, c)])
    (seq 0 grid_cols)) (seq 0 grid_rows).

Record Tile := mkTile { tile_id : string; src : option string; position : nat * nat }.

Fixpoint mapi_from {A B} (f : nat -> A -> B) (i : nat) (l : list A) : list B :=
  match l with
  | [] => []
  | x :: l' => f i x :: mapi_from f (S i) l'
  end.

Definition mapi {A B} (f : nat -> A -> B) (l : list A) : list B := mapi_from f 0 l.

(** Grid initialisation; [shuffled] is [[...imgs].sort(random)], [src] is
    [shuffled[i]] ([None]: [undefined]). *)
Definition init_tiles (shuffled : list string) : list Tile :=
  mapi (fun i pos => mkTile ("tile-" ++ string_of_nat (fst pos) ++ "-"
                                     ++ string_of_nat (snd pos))
                            (nth_error shuffled i) pos) positions.

(** [shuffleTiles]: every tile keeps its id and position, takes [shuffled[i]]. *)
Definition shuffleTiles (shuffled : list string) (prev : list Tile) : list Tile :=
  mapi (fun i t => mkTile (tile_id t) (nth_error shuffled i) (position t)) prev.

(** [GRADIENT_CELLS.indexOf(GRADIENT_CELLS.find(...))]. *)
Fixpoint index_of_cell (cell : nat * nat) (l : list (nat * nat)) (i : nat)
  : option nat :=
  match l with
  | [] => None
  | g :: l' => if same_cell g cell then Some i else index_of_cell cell l' (S i)
  end.

Inductive CellView :=
| GradientCell (index : nat) (label : option (string * string))
| ImageCell (tile : option Tile).

Definition cell_view (tiles : list Tile) (r c : nat) : CellView :=
  match index_of_cell (r, c) GRADIENT_CELLS 0 with
  | Some i => GradientCell i (nth_error GRADIENT_LABELS i)
  | None => ImageCell (find (fun t => same_cell (position t) (r, c)) tiles)
  end.

(** [renderGrid]: row by row, column by column. *)
Definition renderGrid (tiles : list Tile) : list CellView :=
  flat_map (fun r => map (fun c => cell_view tiles r c) (seq 0 grid_cols))
           (seq 0 grid_rows).

(** The [tiles] state after the initialisation with [sh0] and one
    [shuffleTiles] per interval tick, the i-th drawing [shs[i]]. *)
Definition tiles_after_ticks (sh0 : list string) (shs : list (list string))
  : list Tile :=
  fold_left (fun ts sh => shuffleTiles sh ts) shs (init_tiles sh0).

End Tiles.

(* ================================================================== *)
(** * Proofs *)

Lemma platform_eqb_eq p q : platform_eqb p q = true <-> p = q.
Proof. destruct p, q; simpl; split; congruence. Qed.

Module MetricsFacts.
Import Metrics.

Definition sample_ad : Ad :=
  mkAd 1 7 Google "g-1" "Discover the new plan" "Compare features"
       "https://example.com" Video "" (Some 2000) 0 0 true.

Example sample_spend : spend default_table sample_ad = Available (10000 # 2000).
Proof. vm_compute. reflexivity. Qed.

Example sample_stage : funnel_stage sample_ad = Awareness.
Proof. vm_compute. reflexivity. Qed.

Example sample_frequency :
  frequency 0 sample_ad = Unavailable /\ frequency 2 sample_ad = Available (2000 # 2000).
Proof. split; vm_compute; reflexivity. Qed.

Lemma in_get_metrics T c store a :
  In a store -> competitor_id a = c ->
  In (ad_metrics T (active_ad_count c store) a) (get_metrics T c store).
Proof.
  intros Hin Hc. unfold get_metrics. apply in_map.
  apply filter_In. split; [exact Hin | apply Nat.eqb_eq; exact Hc].
Qed.

Lemma clamp_bounds lo hi x : (lo <= hi)%Q -> (lo <= clamp lo hi x <= hi)%Q.
Proof.
  intros H. unfold clamp. split.
  - apply Q.le_max_l.
  - apply Q.max_lub; [exact H | apply Q.le_min_l].
Qed.

Lemma clamp_in_range lo hi x :
  (lo <= x)%Q -> (x <= hi)%Q -> (clamp lo hi x == x)%Q.
Proof.
  intros H1 H2. unfold clamp.
  assert (Hm : (Qmin hi x == x)%Q) by (apply Q.min_r; exact H2).
  rewrite Q.max_r; [exact Hm|]. rewrite Hm. exact H1.
Qed.

(** C1: for every stored ad of the competitor, the bundle reports spend =
    impressions/1000 * the platform's CPM (Google 2.50, Meta 5.00,
    LinkedIn 8.00, Reddit 1.50), and [unavailable], never a number, when
    impressions are absent. *)
Theorem spend_estimate c store a :
  In a store -> competitor_id a = c ->
  let m := ad_metrics default_table (active_ad_count c store) a in
  In m (get_metrics default_table c store) /\
  match impressions a with
  | Some i =>
      exists q, m_spend m = Available q /\
        (q == inject_Z (Z.of_nat i) / 1000 *
              match platform a with
              | Google => 2.50 | Meta => 5.00 | LinkedIn => 8.00 | Reddit => 1.50
              end)%Q
  | None => m_spend m = Unavailable /\ forall q, m_spend m <> Available q
  end.
Proof.
  intros Hin Hc m. split; [apply in_get_metrics; assumption|].
  subst m. cbn [ad_metrics m_spend]. unfold spend.
  destruct (impressions a) as [i|].
  - eexists. split; [reflexivity|].
    destruct (platform a); unfold Qeq; simpl; lia.
  - split; [reflexivity | discriminate].
Qed.

(** Witness of [spend_estimate]: a Google ad with 2000 impressions. *)
Lemma spend_estimate_witness :
  In sample_ad [sample_ad] /\ competitor_id sample_ad = 7 /\
  exists q, m_spend (ad_metrics default_table 1 sample_ad) = Available q /\
            (q == 5)%Q.
Proof.
  pose proof (spend_estimate 7 [sample_ad] sample_ad
                (or_introl eq_refl) eq_refl) as [_ [q [Hq Heq]]].
  split; [left; reflexivity | split; [reflexivity|]].
  exists q. split; [exact Hq|]. rewrite Heq. reflexivity.
Defined.


(** C2: the CTR is base 2% + the platform adjustment (Google higher,
    LinkedIn lower) + 0.5 for video + 0.3 past the text-length threshold,
    clamped: it always lies in [0.1%, 15%], and equals the raw sum when
    that sum is already in range. *)
Theorem ctr_estimate a :
  let raw := (2 + ctr_platform_adjustment default_table (platform a)
              + (match media_format a with Video => 1 # 2 | _ => 0 end)
              + (if Nat.ltb (text_completeness_threshold default_table)
                      (String.length (headline a) + String.length (description a))
                 then 3 # 10 else 0))%Q in
  ctr default_table a = clamp (1 # 10) 15 raw /\
  ((1 # 10 <= raw)%Q -> (raw <= 15)%Q -> (ctr default_table a == raw)%Q) /\
  (forall T, (1 # 10 <= ctr T a <= 15)%Q) /\
  (ctr_platform_adjustment default_table LinkedIn
     < ctr_platform_adjustment default_table (platform a)
   \/ platform a = LinkedIn)%Q /\
  (ctr_platform_adjustment default_table (platform a)
     < ctr_platform_adjustment default_table Google
   \/ platform a = Google)%Q.
Proof.
  intros raw. split; [reflexivity|]. split; [|split; [|split]].
  - intros H1 H2. apply clamp_in_range; assumption.
  - intros T. apply clamp_bounds. unfold Qle; simpl; lia.
  - destruct (platform a); [left | left | right | left];
      try reflexivity; unfold Qlt; simpl; lia.
  - destruct (platform a); [right | left | left | left];
      try reflexivity; unfold Qlt; simpl; lia.
Qed.

(** C3: the per-ad frequency is (impressions/1000) divided by the
    competitor's active ad count; with no active ad (or no impressions)
    it is [unavailable]. *)
Theorem frequency_estimate T c store a :
  In a store -> competitor_id a = c ->
  let n := active_ad_count c store in
  let m := ad_metrics T n a in
  In m (get_metrics T c store) /\
  (n = 0 -> m_frequency m = Unavailable) /\
  (impressions a = None -> m_frequency m = Unavailable) /\
  (forall i, impressions a = Some i -> n <> 0 ->
     exists q, m_frequency m = Available q /\
       (q == inject_Z (Z.of_nat i) / 1000 / inject_Z (Z.of_nat n))%Q).
Proof.
  intros Hin Hc n m. split; [apply in_get_metrics; assumption|].
  subst m. cbn [ad_metrics m_frequency]. unfold frequency.
  split; [|split].
  - intros ->. destruct (impressions a); reflexivity.
  - intros ->. reflexivity.
  - intros i -> Hn. destruct n as [|n']; [contradiction|].
    eexists. split; reflexivity.
Qed.

(** Witness of [frequency_estimate]: one active ad with 2000 impressions. *)
Lemma frequency_estimate_witness :
  In sample_ad [sample_ad] /\ competitor_id sample_ad = 7 /\
  m_frequency (ad_metrics default_table 1 sample_ad) = Available (2000 # 1000).
Proof.
  pose proof (frequency_estimate default_table 7 [sample_ad] sample_ad
                (or_introl eq_refl) eq_refl) as [_ [_ [_ H]]].
  split; [left; reflexivity | split; [reflexivity|]].
  destruct (H 2000 eq_refl) as [q [Hq _]]; [discriminate|].
  change 1 with (active_ad_count 7 [sample_ad]). rewrite Hq.
  vm_compute in Hq. symmetry. exact Hq.
Defined.

(** C4: CPM and CPC come straight from the one estimation table, by
    platform only: two ads on the same platform get the same CPM and CPC
    whatever their impressions or other fields. *)
Theorem cpm_cpc_from_table T c store a :
  In a store -> competitor_id a = c ->
  let m := ad_metrics T (active_ad_count c store) a in
  In m (get_metrics T c store) /\
  m_cpm m = cpm_table T (platform a) /\ m_cpc m = cpc_table T (platform a) /\
  (forall n b, platform b = platform a ->
     m_cpm (ad_metrics T n b) = m_cpm m /\ m_cpc (ad_metrics T n b) = m_cpc m).
Proof.
  intros Hin Hc m. split; [apply in_get_metrics; assumption|].
  subst m. cbn [ad_metrics m_cpm m_cpc]. unfold cpm, cpc.
  split; [reflexivity | split; [reflexivity|]].
  intros n b Hb. cbn [ad_metrics m_cpm m_cpc]. unfold cpm, cpc.
  rewrite Hb. split; reflexivity.
Qed.

(** Witness of [cpm_cpc_from_table]. *)
Lemma cpm_cpc_from_table_witness :
  In sample_ad [sample_ad] /\ competitor_id sample_ad = 7 /\
  m_cpm (ad_metrics default_table 1 sample_ad) = 5 # 2 /\
  m_cpc (ad_metrics default_table 1 sample_ad) = 5 # 2.
Proof.
  pose proof (cpm_cpc_from_table default_table 7 [sample_ad] sample_ad
                (or_introl eq_refl) eq_refl) as [_ [H1 [H2 _]]].
  split; [left; reflexivity | split; [reflexivity|]].
  split; [exact H1 | exact H2].
Defined.

(** C5: the funnel stage is the bucket with the most keyword hits, ties
    going to the earlier bucket (awareness, then consideration, then
    conversion); the three keyword buckets are disjoint. *)
Theorem funnel_stage_choice a :
  let aw := keyword_hits awareness_words (ad_text a) in
  let co := keyword_hits consideration_words (ad_text a) in
  let cv := keyword_hits conversion_words (ad_text a) in
  (funnel_stage a = Awareness <-> co <= aw /\ cv <= aw) /\
  (funnel_stage a = Consideration <-> aw < co /\ cv <= co) /\
  (funnel_stage a = Conversion <-> aw < cv /\ co < cv) /\
  (forall w, In w awareness_words -> ~ In w consideration_words) /\
  (forall w, In w awareness_words -> ~ In w conversion_words) /\
  (forall w, In w consideration_words -> ~ In w conversion_words).
Proof.
  intros aw co cv.
  assert (Hf : funnel_stage a =
    fst (if aw <? co
         then (if co <? cv then (Conversion, cv) else (Consideration, co))
         else (if aw <? cv then (Conversion, cv) else (Awareness, aw))))
    by reflexivity.
  rewrite Hf.
  split; [|split; [|split; [|split; [|split]]]];
    try (intros w H1 H2; simpl in H1, H2; intuition (subst; discriminate)).
  all: destruct (Nat.ltb_spec aw co), (Nat.ltb_spec co cv),
         (Nat.ltb_spec aw cv); simpl; split; intros Hs;
       try discriminate; try lia; try reflexivity; exfalso; lia.
Qed.

End MetricsFacts.

Module OrchestratorFacts.
Import Orchestrator.

(** Two rows with the same dedup key. *)
Definition same_key (a a' : Ad) : Prop :=
  competitor_id a' = competitor_id a /\ platform a' = platform a /\
  external_ad_id a' = external_ad_id a.

Lemma existsb_ext' {A} (f g : A -> bool) l :
  (forall x, f x = g x) -> existsb f l = existsb g l.
Proof. intros H. induction l as [|x l IH]; simpl; [reflexivity|]. rewrite H, IH. reflexivity. Qed.

Lemma existsb_map' {A B} (f : B -> bool) (g : A -> B) l :
  existsb f (map g l) = existsb (fun x => f (g x)) l.
Proof. induction l as [|x l IH]; simpl; [reflexivity|]. rewrite IH. reflexivity. Qed.

Lemma same_key_refl a : same_key a a.
Proof. repeat split. Qed.

Lemma same_key_trans a b d : same_key a b -> same_key b d -> same_key a d.
Proof. intros (H1 & H2 & H3) (H4 & H5 & H6). repeat split; congruence. Qed.

Lemma key_matches_same_key c p e a a' :
  same_key a a' -> key_matches c p e a' = key_matches c p e a.
Proof. intros (H1 & H2 & H3). unfold key_matches. rewrite H1, H2, H3. reflexivity. Qed.

Lemma same_key_refresh now k a : same_key a (refresh now k a).
Proof. repeat split. Qed.

Lemma same_key_mark_one c R a : same_key a (mark_one c R a).
Proof.
  unfold mark_one. destruct (Nat.eqb (competitor_id a) c); [|apply same_key_refl].
  destruct (successful_ads (R (platform a))); [|apply same_key_refl].
  destruct (existsb _ _); [apply same_key_refl | repeat split].
Qed.

Lemma key_matches_new_ad id now c p k :
  key_matches c p (c_external_ad_id k) (new_ad id now c p k) = true.
Proof.
  unfold key_matches, new_ad; simpl.
  rewrite Nat.eqb_refl, String.eqb_refl.
  destruct p; reflexivity.
Qed.

(** Upsert keeps every existing row at its index, refreshing it exactly
    when its key is the candidate's. *)
Lemma upsert_nth now c p k s i a :
  nth_error s i = Some a ->
  nth_error (upsert now c p k s) i =
  Some (if key_matches c p (c_external_ad_id k) a then refresh now k a else a).
Proof.
  intros Hi. unfold upsert.
  destruct (existsb _ s) eqn:Ex.
  - rewrite nth_error_map, Hi. reflexivity.
  - rewrite nth_error_app1 by (apply nth_error_Some; congruence).
    rewrite Hi.
    destruct (key_matches c p (c_external_ad_id k) a) eqn:Ka; [|reflexivity].
    exfalso. assert (existsb (key_matches c p (c_external_ad_id k)) s = true)
      by (apply existsb_exists; exists a; split; [eapply nth_error_In; eauto | exact Ka]).
    congruence.
Qed.

Lemma upsert_all_nth now c ks s i a :
  nth_error s i = Some a ->
  exists a', nth_error (upsert_all now c ks s) i = Some a' /\
    same_key a a' /\ first_seen a' = first_seen a /\
    (existsb (fun pk => key_matches c (fst pk) (c_external_ad_id (snd pk)) a) ks
       = false -> a' = a).
Proof.
  revert s a. induction ks as [|[p k] ks IH]; intros s a Hi.
  - exists a. split; [exact Hi|]. split; [apply same_key_refl|]. split; reflexivity.
  - simpl. pose proof (upsert_nth now c p k s i a Hi) as Hu.
    set (b := if key_matches c p (c_external_ad_id k) a then refresh now k a else a) in Hu.
    assert (Hb : same_key a b /\ first_seen b = first_seen a)
      by (subst b; destruct (key_matches _ _ _ a);
          [split; [apply same_key_refresh | reflexivity]
          | split; [apply same_key_refl | reflexivity]]).
    destruct Hb as [Hkb Hfb].
    destruct (IH _ _ Hu) as (a' & Ha' & Hk' & Hf' & Hu').
    exists a'. split; [exact Ha'|]. split; [eapply same_key_trans; eauto|].
    split; [congruence|].
    intros Hno. apply orb_false_iff in Hno as [Hno1 Hno2]. simpl in Hno1.
    rewrite Hu'.
    + subst b. rewrite Hno1. reflexivity.
    + erewrite existsb_ext'; [exact Hno2|].
      intros [p' k']. simpl. apply key_matches_same_key. exact Hkb.
Qed.

Lemma mark_inactive_nth c R s i a :
  nth_error s i = Some a -> nth_error (mark_inactive c R s) i = Some (mark_one c R a).
Proof. intros Hi. unfold mark_inactive. rewrite nth_error_map, Hi. reflexivity. Qed.

Lemma observed_In R p k :
  In (p, k) (observed R) -> exists l, successful_ads (R p) = Some l /\ In k l.
Proof.
  unfold observed. intros H. apply in_flat_map in H as (q & _ & Hq).
  destruct (successful_ads (R q)) as [l|] eqn:Hs; [|contradiction].
  apply in_map_iff in Hq as (k' & Heq & Hk). inversion Heq; subst.
  exists l. split; assumption.
Qed.


Lemma key_matches_platform c p e a :
  key_matches c p e a = true -> platform a = p.
Proof.
  unfold key_matches. intros H.
  apply andb_true_iff in H as [H _]. apply andb_true_iff in H as [_ H].
  apply platform_eqb_eq. exact H.
Qed.

(** No observed candidate matches a row whose platform errored. *)
Lemma errored_platform_unobserved c R a e msg :
  R (platform a) = Error e msg ->
  existsb (fun pk => key_matches c (fst pk) (c_external_ad_id (snd pk)) a)
          (observed R) = false.
Proof.
  intros He. destruct (existsb _ _) eqn:Ex; [|reflexivity].
  apply existsb_exists in Ex as ([p k] & Hin & Hk). simpl in Hk.
  apply key_matches_platform in Hk. subst p.
  apply observed_In in Hin as (l & Hl & _). rewrite He in Hl. discriminate.
Qed.

Lemma mark_one_errored c R a e msg :
  R (platform a) = Error e msg -> mark_one c R a = a.
Proof.
  intros He. unfold mark_one. rewrite He. simpl.
  destruct (Nat.eqb _ _); reflexivity.
Qed.

(** C6: after a run, a row of the competitor on a platform that succeeded
    and whose external id is absent from that platform's result set is
    inactive; a row on a platform whose adapter errored keeps its
    is-active flag (and every row stays at its place with its key). *)
Theorem run_marks_vanished_inactive now c R s i a :
  nth_error s i = Some a ->
  let s' := snd (runFetch now c R s) in
  (competitor_id a = c -> forall l, successful_ads (R (platform a)) = Some l ->
     ~ In (external_ad_id a) (map c_external_ad_id l) ->
     exists a', nth_error s' i = Some a' /\ same_key a a' /\ is_active a' = false) /\
  (forall e msg, R (platform a) = Error e msg ->
     exists a', nth_error s' i = Some a' /\ same_key a a' /\
                is_active a' = is_active a).
Proof.
  intros Hi s'.
  destruct (upsert_all_nth now c (observed R) s i a Hi) as (a' & Ha' & Hk & _ & Hu).
  pose proof (mark_inactive_nth c R _ i a' Ha') as Hm.
  split.
  - intros Hc l Hl Hnot. exists (mark_one c R a'). split; [exact Hm|].
    split; [eapply same_key_trans; [exact Hk | apply same_key_mark_one]|].
    destruct Hk as (Hk1 & Hk2 & Hk3).
    unfold mark_one. rewrite Hk1, Hc, Nat.eqb_refl, Hk2, Hl, Hk3.
    destruct (existsb _ l) eqn:Ex; [|reflexivity].
    exfalso. apply existsb_exists in Ex as (k & Hkl & Heq).
    apply String.eqb_eq in Heq. apply Hnot. rewrite <- Heq. apply in_map. exact Hkl.
  - intros e msg He. rewrite (Hu (errored_platform_unobserved c R a e msg He)) in Hm.
    exists a. split; [|split; [apply same_key_refl | reflexivity]].
    rewrite (mark_one_errored c R a e msg He) in Hm. exact Hm.
Qed.

Definition km (c : nat) (a : Ad) (pk : Platform * Candidate) : bool :=
  key_matches c (fst pk) (c_external_ad_id (snd pk)) a.

Lemma upsert_all_snoc now c ks pk s :
  upsert_all now c (ks ++ [pk]) s = upsert now c (fst pk) (snd pk) (upsert_all now c ks s).
Proof. unfold upsert_all. rewrite fold_left_app. reflexivity. Qed.

Lemma last_match_snoc c ks pk a :
  last_match c (ks ++ [pk]) a =
  if km c a pk then Some (snd pk) else last_match c ks a.
Proof. unfold last_match. rewrite fold_left_app. reflexivity. Qed.

Lemma last_match_same_key c ks a a' :
  same_key a a' -> last_match c ks a' = last_match c ks a.
Proof.
  intros Hk. induction ks as [|pk ks IH] using rev_ind; [reflexivity|].
  rewrite !last_match_snoc, IH. unfold km. rewrite (key_matches_same_key _ _ _ _ _ Hk).
  reflexivity.
Qed.

Lemma last_match_None c ks a :
  last_match c ks a = None <-> existsb (km c a) ks = false.
Proof.
  induction ks as [|pk ks IH] using rev_ind; [simpl; tauto|].
  rewrite last_match_snoc, existsb_app. simpl.
  destruct (km c a pk); rewrite ?orb_true_r, ?orb_false_r; [split; discriminate|exact IH].
Qed.

Lemma last_match_Some c ks a k :
  last_match c ks a = Some k -> exists p, In (p, k) ks /\ km c a (p, k) = true.
Proof.
  induction ks as [|[p k'] ks IH] using rev_ind; [discriminate|].
  rewrite last_match_snoc. destruct (km c a (p, k')) eqn:Hk.
  - intros H. inversion H; subst. exists p. split; [apply in_or_app; right; left; reflexivity | exact Hk].
  - intros H. destruct (IH H) as (q & Hq & Hkq). exists q. split; [apply in_or_app; left|]; assumption.
Qed.

Lemma same_key_apply_last now c ks a : same_key a (apply_last now c ks a).
Proof. unfold apply_last. destruct (last_match c ks a); [apply same_key_refresh | apply same_key_refl]. Qed.

Lemma upsert_In now c p k s a :
  In a s -> exists a', In a' (upsert now c p k s) /\ same_key a a'.
Proof.
  intros H. unfold upsert. destruct (existsb _ s).
  - eexists. split; [apply in_map; exact H|].
    destruct (key_matches _ _ _ a); [apply same_key_refresh | apply same_key_refl].
  - exists a. split; [apply in_or_app; left; exact H | apply same_key_refl].
Qed.

Lemma existsb_upsert now c p k s c' p' e' :
  existsb (key_matches c' p' e') s = true ->
  existsb (key_matches c' p' e') (upsert now c p k s) = true.
Proof.
  intros H. apply existsb_exists in H as (a & Ha & Hk).
  destruct (upsert_In now c p k s a Ha) as (a' & Ha' & Hs).
  apply existsb_exists. exists a'. split; [exact Ha'|].
  rewrite (key_matches_same_key _ _ _ _ _ Hs). exact Hk.
Qed.

Lemma existsb_upsert_self now c p k s :
  existsb (key_matches c p (c_external_ad_id k)) (upsert now c p k s) = true.
Proof.
  unfold upsert. destruct (existsb _ s) eqn:Ex.
  - apply existsb_exists in Ex as (a & Ha & Hk). apply existsb_exists.
    exists (refresh now k a). split.
    + apply in_map_iff. exists a. rewrite Hk. split; [reflexivity | exact Ha].
    + rewrite (key_matches_same_key _ _ _ _ _ (same_key_refresh now k a)). exact Hk.
  - rewrite existsb_app. simpl. rewrite key_matches_new_ad, orb_true_r. reflexivity.
Qed.

(** After upserting a list of candidates, each candidate's key is stored. *)
Lemma upsert_all_keys now c ks s pk :
  In pk ks -> existsb (key_matches c (fst pk) (c_external_ad_id (snd pk)))
                      (upsert_all now c ks s) = true.
Proof.
  revert s. induction ks as [|[p k] ks IH]; intros s Hin; [contradiction|].
  simpl. destruct Hin as [<-|Hin]; [|apply IH; exact Hin].
  clear IH. set (s1 := upsert now c p k s).
  assert (H1 : existsb (key_matches c p (c_external_ad_id k)) s1 = true)
    by apply existsb_upsert_self.
  clearbody s1. revert s1 H1. induction ks as [|[p' k'] ks IH']; intros s1 H1;
    [exact H1|]. simpl. apply IH'. apply existsb_upsert. exact H1.
Qed.

(** When every candidate's key is already stored, upserting them refreshes
    each row with the last candidate of its key and adds no row. *)
Lemma upsert_all_existing now c ks s :
  (forall pk, In pk ks ->
     existsb (key_matches c (fst pk) (c_external_ad_id (snd pk))) s = true) ->
  upsert_all now c ks s = map (apply_last now c ks) s.
Proof.
  induction ks as [|[p k] ks IH] using rev_ind; intros Hall.
  - symmetry. apply map_id.
  - rewrite upsert_all_snoc, IH by (intros pk Hpk; apply Hall, in_or_app; left; exact Hpk).
    unfold upsert. simpl fst; simpl snd.
    rewrite existsb_map'.
    erewrite existsb_ext'; [rewrite (Hall (p, k)) by (apply in_or_app; right; left; reflexivity)|].
    + rewrite map_map. apply map_ext. intros a.
      rewrite (key_matches_same_key _ _ _ _ _ (same_key_apply_last now c ks a)).
      unfold apply_last at 3. rewrite last_match_snoc. unfold km; simpl fst; simpl snd.
      destruct (key_matches c p (c_external_ad_id k) a); [|reflexivity].
      unfold apply_last. destruct (last_match c ks a); reflexivity.
    + intros a. simpl. apply key_matches_same_key, same_key_apply_last.
Qed.

(** After upserting, a row whose key some candidate carries holds that
    candidate's display fields, is active and was last seen now. *)
Lemma upsert_all_refreshed now c ks s a k :
  In a (upsert_all now c ks s) -> last_match c ks a = Some k -> a = refresh now k a.
Proof.
  induction ks as [|[p k0] ks IH] using rev_ind; [intros _ H; discriminate H|].
  rewrite upsert_all_snoc, last_match_snoc. simpl fst; simpl snd.
  unfold km; simpl fst; simpl snd. unfold upsert.
  destruct (existsb _ (upsert_all now c ks s)) eqn:Ex; intros Hin.
  - apply in_map_iff in Hin as (x & <- & Hx).
    destruct (key_matches c p (c_external_ad_id k0) x) eqn:Kx.
    + rewrite (key_matches_same_key _ _ _ _ _ (same_key_refresh now k0 x)), Kx.
      intros H. inversion H; subst. reflexivity.
    + rewrite Kx. apply IH. exact Hx.
  - apply in_app_or in Hin as [Hx|[<-|[]]].
    + assert (Kx : key_matches c p (c_external_ad_id k0) a = false).
      { destruct (key_matches _ _ _ a) eqn:Ka; [|reflexivity].
        exfalso. assert (existsb (key_matches c p (c_external_ad_id k0))
                           (upsert_all now c ks s) = true)
          by (apply existsb_exists; exists a; split; assumption).
        congruence. }
      rewrite Kx. apply IH. exact Hx.
    + rewrite key_matches_new_ad. intros H. inversion H; subst. reflexivity.
Qed.

Lemma seen_in_run_observed c R a :
  seen_in_run c R a = true <-> existsb (km c a) (observed R) = true.
Proof.
  rewrite existsb_exists. unfold seen_in_run. split.
  - intros H. apply andb_true_iff in H as [Hc H].
    destruct (successful_ads (R (platform a))) as [l|] eqn:Hl; [|discriminate].
    apply existsb_exists in H as (k & Hk & He).
    exists (platform a, k). split.
    + unfold observed. apply in_flat_map. exists (platform a).
      split; [destruct (platform a); simpl; tauto|].
      rewrite Hl. apply in_map. exact Hk.
    + unfold km, key_matches; simpl. rewrite Hc.
      apply String.eqb_eq in He. rewrite He, String.eqb_refl.
      destruct (platform a); reflexivity.
  - intros ([p k] & Hin & Hk). unfold km, key_matches in Hk; simpl in Hk.
    apply andb_true_iff in Hk as [Hk He]. apply andb_true_iff in Hk as [Hc Hp].
    apply platform_eqb_eq in Hp. subst p.
    apply observed_In in Hin as (l & Hl & Hkl).
    rewrite Hc, Hl. simpl. apply existsb_exists. exists k. split; [exact Hkl|].
    apply String.eqb_eq in He. rewrite He. apply String.eqb_refl.
Qed.

Lemma seen_in_run_same_key c R a a' :
  same_key a a' -> seen_in_run c R a' = seen_in_run c R a.
Proof. intros (H1 & H2 & H3). unfold seen_in_run. rewrite H1, H2, H3. reflexivity. Qed.

Lemma mark_one_seen c R a : seen_in_run c R a = true -> mark_one c R a = a.
Proof.
  unfold seen_in_run, mark_one. intros H. apply andb_true_iff in H as [Hc H].
  rewrite Hc. destruct (successful_ads (R (platform a))); [|reflexivity].
  rewrite H. reflexivity.
Qed.

Lemma mark_one_idem c R a : mark_one c R (mark_one c R a) = mark_one c R a.
Proof.
  unfold mark_one at 2. destruct (Nat.eqb (competitor_id a) c) eqn:Hc;
    [|unfold mark_one; rewrite Hc; reflexivity].
  destruct (successful_ads (R (platform a))) as [l|] eqn:Hl;
    [|unfold mark_one; rewrite Hc; rewrite Hl; reflexivity].
  destruct (existsb _ l) eqn:Ex; unfold mark_one; simpl; rewrite Hc, Hl, Ex; reflexivity.
Qed.

(** A run never removes a row, and keeps each row's first-seen and key. *)
Lemma run_preserves_rows now c R s i a :
  nth_error s i = Some a ->
  exists a', nth_error (snd (runFetch now c R s)) i = Some a' /\
             same_key a a' /\ first_seen a' = first_seen a.
Proof.
  intros Hi. destruct (upsert_all_nth now c (observed R) s i a Hi) as (a' & Ha' & Hk & Hf & _).
  exists (mark_one c R a'). split; [apply mark_inactive_nth; exact Ha'|].
  split; [eapply same_key_trans; [exact Hk | apply same_key_mark_one]|].
  rewrite <- Hf. unfold mark_one.
  destruct (Nat.eqb _ _); [|reflexivity].
  destruct (successful_ads _); [|reflexivity]. destruct (existsb _ _); reflexivity.
Qed.

(** C7: re-running [runFetch] with the same upstream response changes no
    row but for bumping last-seen of the rows seen in the run: no row is
    added, first-seen and every other field stay; and in any run every
    existing row keeps its first-seen. *)
Theorem rerun_identical_response now1 now2 c R s0 :
  let s1 := snd (runFetch now1 c R s0) in
  let s2 := snd (runFetch now2 c R s1) in
  s2 = map (fun a => if seen_in_run c R a then set_last_seen now2 a else a) s1 /\
  List.length s2 = List.length s1 /\
  (forall i a1, nth_error s1 i = Some a1 ->
     exists a2, nth_error s2 i = Some a2 /\ first_seen a2 = first_seen a1) /\
  (forall now s i a, nth_error s i = Some a ->
     exists a', nth_error (snd (runFetch now c R s)) i = Some a' /\
                first_seen a' = first_seen a).
Proof.
  intros s1 s2.
  assert (Hs2 : s2 = map (fun a => if seen_in_run c R a then set_last_seen now2 a else a) s1).
  { subst s1 s2. unfold runFetch; simpl snd. unfold mark_inactive.
    set (ks := observed R).
    set (u1 := upsert_all now1 c ks s0).
    rewrite (upsert_all_existing now2 c ks (map (mark_one c R) u1)).
    2:{ intros pk Hpk. rewrite existsb_map'.
        erewrite existsb_ext'; [apply upsert_all_keys; exact Hpk|].
        intros a. apply key_matches_same_key, same_key_mark_one. }
    rewrite !map_map. apply map_ext_in. intros a Ha.
    destruct (last_match c ks a) as [k|] eqn:Hl.
    - assert (Hseen : seen_in_run c R a = true).
      { apply seen_in_run_observed. apply existsb_exists.
        destruct (last_match_Some _ _ _ _ Hl) as (p & Hp & Hk). exists (p, k). split; assumption. }
      rewrite (mark_one_seen c R a Hseen), Hseen.
      unfold apply_last. rewrite Hl.
      pose proof (upsert_all_refreshed now1 c ks s0 a k Ha Hl) as Hr.
      rewrite Hr. rewrite mark_one_seen; [reflexivity|].
      rewrite (seen_in_run_same_key c R a);
        [exact Hseen | eapply same_key_trans; apply same_key_refresh].
    - assert (Hunseen : seen_in_run c R a = false).
      { destruct (seen_in_run c R a) eqn:E; [|reflexivity].
        apply seen_in_run_observed in E. apply last_match_None in Hl.
        unfold ks in Hl. congruence. }
      rewrite (seen_in_run_same_key c R a (mark_one c R a) (same_key_mark_one c R a)), Hunseen.
      unfold apply_last.
      rewrite (last_match_same_key c ks a (mark_one c R a) (same_key_mark_one c R a)), Hl.
      apply mark_one_idem. }
  split; [exact Hs2|]. split; [rewrite Hs2; apply length_map|]. split.
  - intros i a1 Hi. rewrite Hs2, nth_error_map, Hi. simpl.
    eexists. split; [reflexivity|]. destruct (seen_in_run c R a1); reflexivity.
  - intros now s i a Hi. destruct (run_preserves_rows now c R s i a Hi) as (a' & H1 & _ & H3).
    exists a'. split; assumption.
Qed.

(** A run: Google returns one of its two stored ads, Meta times out. *)
Definition demo_ad (id : nat) (p : Platform) (ext : string) : Ad :=
  mkAd id 1 p ext "New plan" "Buy now" "https://example.com" Image ""
       (Some 1000) 0 0 true.

Definition demo_store : list Ad :=
  [demo_ad 1 Google "g1"; demo_ad 2 Google "g2"; demo_ad 3 Meta "m1"].

Definition demo_candidate (ext : string) : Candidate :=
  mkCandidate ext "New plan" "Buy now" "https://example.com" Image "" (Some 1500).

Definition demo_upstream : Upstream := fun p =>
  match p with
  | Google => Ok [demo_candidate "g1"; demo_candidate "g9"]
  | Meta => Error AdapterTimeout "timeout"
  | _ => Ok []
  end.

Example demo_run_status :
  job_status (fst (runFetch 5 1 demo_upstream demo_store)) = Partial.
Proof. reflexivity. Qed.

Example demo_run_store :
  map (fun a => (external_ad_id a, is_active a, first_seen a, last_seen a))
      (snd (runFetch 5 1 demo_upstream demo_store)) =
  [("g1", true, 0, 5); ("g2", false, 0, 0); ("m1", true, 0, 0); ("g9", true, 5, 5)].
Proof. reflexivity. Qed.

Example demo_rerun :
  map (fun a => (external_ad_id a, is_active a, first_seen a, last_seen a))
      (snd (runFetch 9 1 demo_upstream (snd (runFetch 5 1 demo_upstream demo_store)))) =
  [("g1", true, 0, 9); ("g2", false, 0, 0); ("m1", true, 0, 0); ("g9", true, 5, 9)].
Proof. reflexivity. Qed.

(** Witness of [run_marks_vanished_inactive]: "g2" vanished from Google. *)
Lemma run_marks_vanished_inactive_witness :
  nth_error demo_store 1 = Some (demo_ad 2 Google "g2") /\
  exists a', nth_error (snd (runFetch 5 1 demo_upstream demo_store)) 1 = Some a' /\
             same_key (demo_ad 2 Google "g2") a' /\ is_active a' = false.
Proof.
  split; [reflexivity|].
  destruct (run_marks_vanished_inactive 5 1 demo_upstream demo_store 1
              (demo_ad 2 Google "g2") eq_refl) as [H _].
  apply (H eq_refl [demo_candidate "g1"; demo_candidate "g9"]); [reflexivity|].
  simpl. intros [Hx|[Hx|[]]]; discriminate Hx.
Defined.

End OrchestratorFacts.


Module ChatFacts.
Import Js Chat.
Local Open Scope list_scope.

Definition demo_state : ChatState := mkChatState "hi" false [].

Example demo_blank_noop :
  handle_send_start 0 "9:00 AM" None "chat" (mkChatState " " false []) = NoOp.
Proof. reflexivity. Qed.

Example demo_send :
  handle_send_start 0 "9:00 AM" None "chat" demo_state =
  Started "hi" "chat" (mkChatState "" true [mkMessage 0 User (JStr "hi") "9:00 AM"]).
Proof. reflexivity. Qed.

(** U+00A0 (no-break space) and U+3000 (ideographic space), in UTF-8. *)
Definition nbsp : string := String (ascii_of_nat 194) (String (ascii_of_nat 160) "").
Definition ideographic_space : string :=
  String (ascii_of_nat 227) (String (ascii_of_nat 128) (String (ascii_of_nat 128) "")).

Example trim_nbsp : trim (nbsp ++ " " ++ nbsp)%string = "".
Proof. vm_compute. reflexivity. Qed.

Example trim_unicode_ends :
  trim (nbsp ++ "hi there" ++ ideographic_space ++ String (ascii_of_nat 10) "")%string
  = "hi there".
Proof. vm_compute. reflexivity. Qed.

(** U+00E0 ends in the byte 160 too, and is kept. *)
Example trim_keeps_a_grave :
  let a_grave := String (ascii_of_nat 195) (String (ascii_of_nat 160) "") in
  trim ("voil" ++ a_grave ++ nbsp)%string = ("voil" ++ a_grave)%string.
Proof. vm_compute. reflexivity. Qed.

Lemma str_truthy_false s : str_truthy s = false <-> s = "".
Proof.
  unfold str_truthy. rewrite negb_false_iff. apply String.eqb_eq.
Qed.

(** C8: [handleSend] is a no-op when the text to send is blank after
    trimming or a send is in flight; the ChatInput Enter handler and send
    button do not call [onSend] then either. *)
Theorem send_guard :
  (forall now ts textOverride action st,
     trim (text_to_send textOverride (message st)) = "" \/ isLoading st = true ->
     handle_send_start now ts textOverride action st = NoOp) /\
  (forall key shiftKey value loading,
     trim value = "" \/ loading = true ->
     chat_input_key_press key shiftKey value loading = false /\
     send_button_disabled value loading = true /\
     chat_input_click_sends value loading = false).
Proof.
  split.
  - intros now ts o act st H. unfold handle_send_start.
    destruct H as [H|H].
    + rewrite H. reflexivity.
    + rewrite H, orb_true_r. reflexivity.
  - intros key sh v l H.
    assert (Hd : send_button_disabled v l = true).
    { unfold send_button_disabled. destruct H as [H|H].
      - rewrite H. reflexivity.
      - rewrite H, orb_true_r. reflexivity. }
    split; [|split; [exact Hd | unfold chat_input_click_sends; rewrite Hd; reflexivity]].
    unfold chat_input_key_press. destruct (_ && _); [|reflexivity].
    destruct H as [H|H]; rewrite H; [reflexivity | apply andb_false_r].
Qed.

(** Witness of [send_guard]: a blank draft, a draft of one no-break space,
    a draft while loading. *)
Lemma send_guard_witness :
  handle_send_start 0 "9:00 AM" None "chat" (mkChatState "  " false []) = NoOp /\
  handle_send_start 0 "9:00 AM" None "chat" (mkChatState nbsp false []) = NoOp /\
  handle_send_start 0 "9:00 AM" (Some "go") "chat" (mkChatState "" true []) = NoOp /\
  chat_input_key_press "Enter" false "hi" true = false /\
  chat_input_click_sends " " false = false.
Proof.
  destruct send_guard as [H1 H2].
  split; [apply H1; left; reflexivity|].
  split; [apply H1; left; vm_compute; reflexivity|].
  split; [apply H1; right; reflexivity|].
  split; [apply (H2 "Enter" false "hi" true); right; reflexivity|].
  apply (H2 "Enter" false " " false). left. reflexivity.
Defined.

(** C9 as stated fails: a successful response whose [reply] field is
    present but empty gets the fallback text, not the server's reply. *)
Lemma handle_send_reply_counterexample :
  ~ (forall now ts textOverride action st text action' st' now' ts' v,
       handle_send_start now ts textOverride action st = Started text action' st' ->
       messages (handle_send_settle now' ts'
                   (Response true (Some (JsonObject (Some v)))) st') =
       messages st ++ [mkMessage now User (JStr text) ts;
                       mkMessage (S now') Bot v ts']).
Proof.
  intros H.
  specialize (H 0 "9:00 AM" None "chat" demo_state "hi" "chat"
                (mkChatState "" true [mkMessage 0 User (JStr "hi") "9:00 AM"])
                0 "9:01 AM" (JStr "") eq_refl).
  simpl in H. inversion H.
Qed.

(** C9 (amended): a send that starts appends the user message, then
    exactly one bot message once the request settles: the reply when it is
    truthy, the fallback text when the parsed body has no truthy [reply],
    the connection-error apology when the request throws, the status is not
    ok, or the body is not JSON or is [null]; [isLoading] is false after
    settling on every path. *)
Theorem handle_send_appends now ts textOverride action st text action' st' :
  handle_send_start now ts textOverride action st = Started text action' st' ->
  isLoading st' = true /\
  forall now' ts' r,
    let st'' := handle_send_settle now' ts' r st' in
    messages st'' = messages st ++ [mkMessage now User (JStr text) ts;
                                    mkMessage (S now') Bot (bot_content r) ts'] /\
    isLoading st'' = false /\
    (forall v, r = Response true (Some (JsonObject (Some v))) -> truthy v = true ->
       bot_content r = v) /\
    (r = Response true (Some (JsonObject None)) \/
     (exists v, r = Response true (Some (JsonObject (Some v))) /\ truthy v = false) \/
     (exists v, r = Response true (Some (JsonPrimitive v))) ->
       bot_content r = JStr fallback_text) /\
    (r = NetworkError \/ (exists b, r = Response false b) \/
     r = Response true None \/ r = Response true (Some JsonNull) ->
       bot_content r = JStr error_text).
Proof.
  unfold handle_send_start.
  destruct (negb _ || isLoading st) eqn:G; [discriminate|].
  intros H. inversion H; subst; clear H.
  split; [reflexivity|]. intros now' ts' r. simpl.
  split; [rewrite <- app_assoc; reflexivity|]. split; [reflexivity|]. split; [|split].
  - intros v -> Hv. simpl. rewrite Hv. reflexivity.
  - intros [->|[(v & -> & Hv)|(v & ->)]]; simpl; [reflexivity | rewrite Hv |]; reflexivity.
  - intros [->|[(b & ->)|[->| ->]]]; reflexivity.
Qed.

(** Witness of [handle_send_appends]. *)
Lemma handle_send_appends_witness :
  handle_send_start 0 "9:00 AM" None "chat" demo_state =
    Started "hi" "chat" (mkChatState "" true [mkMessage 0 User (JStr "hi") "9:00 AM"]) /\
  messages (handle_send_settle 0 "9:01 AM" NetworkError
              (mkChatState "" true [mkMessage 0 User (JStr "hi") "9:00 AM"])) =
    [mkMessage 0 User (JStr "hi") "9:00 AM"; mkMessage 1 Bot (JStr error_text) "9:01 AM"].
Proof.
  split; [reflexivity|].
  destruct (handle_send_appends 0 "9:00 AM" None "chat" demo_state "hi" "chat"
              (mkChatState "" true [mkMessage 0 User (JStr "hi") "9:00 AM"]) eq_refl)
    as [_ H].
  destruct (H 0 "9:01 AM" NetworkError) as [Hm _]. exact Hm.
Defined.

End ChatFacts.


Module HomeFacts.
Import Js Home.

Example demo_related :
  map id (handleCardClick (mkSampleAd 7 "x" "PROMOTED" "4.0" "1K" [] "Food")) = [201].
Proof. reflexivity. Qed.

Example demo_related_self :
  handleCardClick (mkSampleAd 101 "x" "PROMOTED" "4.0" "1K" [] "Sports") = [].
Proof. reflexivity. Qed.

Definition rated (x : SampleAd) : Prop := parseFloat (rating x) <> None.

Definition rating_ge (x y : SampleAd) : Prop := (rating_num y <= rating_num x)%Q.

Lemma compare_rating_rated x y :
  rated x -> rated y -> compare_rating x y = Qminus (rating_num y) (rating_num x).
Proof.
  unfold rated, compare_rating, rating_num. intros Hx Hy.
  destruct (parseFloat (rating x)); [|contradiction].
  destruct (parseFloat (rating y)); [reflexivity|contradiction].
Qed.

Lemma In_insert_by cmp x l z : In z (insert_by cmp x l) <-> z = x \/ In z l.
Proof.
  induction l as [|y l IH]; simpl; [intuition congruence|].
  destruct (Qlt_le_dec (cmp x y) 0); simpl; [intuition congruence|].
  rewrite IH. intuition congruence.
Qed.

Lemma HdRel_insert_by x y l :
  rated x -> Forall rated l -> HdRel rating_ge y l -> rating_ge y x ->
  HdRel rating_ge y (insert_by compare_rating x l).
Proof.
  intros Hx Hl Hd Hyx. destruct l as [|z l]; simpl; [constructor; exact Hyx|].
  destruct (Qlt_le_dec (compare_rating x z) 0); constructor; [exact Hyx|].
  inversion Hd; assumption.
Qed.

Lemma insert_by_sorted x l :
  rated x -> Forall rated l -> Sorted rating_ge l ->
  Sorted rating_ge (insert_by compare_rating x l).
Proof.
  intros Hx. induction l as [|y l IH]; intros Hl Hs; simpl; [repeat constructor|].
  inversion Hl as [|? ? Hy Hl']; subst. inversion Hs as [|? ? Hs' Hd]; subst.
  rewrite (compare_rating_rated x y Hx Hy).
  destruct (Qlt_le_dec (rating_num y - rating_num x) 0) as [Hlt|Hle].
  - constructor; [exact Hs|]. constructor. unfold rating_ge. lra.
  - constructor; [apply IH; assumption|].
    apply HdRel_insert_by; try assumption. unfold rating_ge. lra.
Qed.

Lemma sort_by_spec l :
  Forall rated l ->
  Sorted rating_ge (sort_by compare_rating l) /\
  (forall z, In z (sort_by compare_rating l) -> In z l).
Proof.
  unfold sort_by. intros Hl.
  assert (G : forall acc, Forall rated acc -> Sorted rating_ge acc ->
            Sorted rating_ge (fold_left (fun acc x => insert_by compare_rating x acc) l acc) /\
            (forall z, In z (fold_left (fun acc x => insert_by compare_rating x acc) l acc) ->
                       In z l \/ In z acc)).
  { induction l as [|x l IH]; intros acc Ha Hs; simpl.
    - split; [exact Hs | tauto].
    - inversion Hl as [|? ? Hx Hl']; subst.
      destruct (IH Hl' (insert_by compare_rating x acc)) as [H1 H2].
      + apply Forall_forall. intros z Hz.
        apply In_insert_by in Hz as [->|Hz]; [exact Hx | exact (proj1 (Forall_forall _ _) Ha z Hz)].
      + apply insert_by_sorted; assumption.
      + split; [exact H1|]. intros z Hz. destruct (H2 z Hz) as [H|H].
        * left. right. exact H.
        * apply In_insert_by in H as [->|H]; [left; left; reflexivity | right; exact H]. }
  destruct (G [] (Forall_nil _) (Sorted_nil _)) as [H1 H2].
  split; [exact H1|]. intros z Hz. destruct (H2 z Hz) as [H|[]]. exact H.
Qed.

Lemma sorted_firstn {A} (R : A -> A -> Prop) n l :
  Sorted R l -> Sorted R (firstn n l).
Proof.
  revert l. induction n as [|n IH]; intros l Hs; [constructor|].
  destruct l as [|x l]; [constructor|]. simpl.
  inversion Hs as [|? ? Hs' Hd]; subst. constructor; [apply IH; exact Hs'|].
  destruct n; [constructor|]. destruct l; simpl; [constructor|].
  inversion Hd; subst. constructor. assumption.
Qed.

Lemma In_firstn' {A} n (l : list A) z : In z (firstn n l) -> In z l.
Proof.
  intros H. rewrite <- (firstn_skipn n l). apply in_or_app. left. exact H.
Qed.

Lemma allAds_rated : Forall rated allAds.
Proof. repeat constructor; unfold rated; simpl; discriminate. Qed.

(** C10: the related ads of a clicked card are sample ads of the same
    genre and a different id, sorted by numeric rating, highest first,
    and at most three. *)
Theorem handleCardClick_related ad :
  let r := handleCardClick ad in
  (forall x, In x r -> In x allAds /\ genre x = genre ad /\ id x <> id ad) /\
  Sorted (fun x y => (rating_num y <= rating_num x)%Q) r /\
  List.length r <= 3.
Proof.
  intros r.
  set (f := filter (fun item => String.eqb (genre item) (genre ad)
                                && negb (Nat.eqb (id item) (id ad))) allAds).
  assert (Hf : Forall rated f).
  { apply Forall_forall. intros x Hx. apply filter_In in Hx as [Hx _].
    exact (proj1 (Forall_forall _ _) allAds_rated x Hx). }
  destruct (sort_by_spec f Hf) as [Hs Hin].
  split; [|split].
  - intros x Hx. apply In_firstn', Hin in Hx. apply filter_In in Hx as [Hx Hk].
    apply andb_true_iff in Hk as [Hg Hi]. split; [exact Hx|].
    split; [apply String.eqb_eq; exact Hg|].
    apply negb_true_iff, Nat.eqb_neq in Hi. exact Hi.
  - apply sorted_firstn. exact Hs.
  - unfold r, handleCardClick. rewrite length_firstn. apply Nat.le_min_l.
Qed.

End HomeFacts.


Module SplitFacts.
Import Split.

Lemma split_char_not_nil sep s : split_char sep s <> [].
Proof.
  destruct s as [|ch s]; simpl; [discriminate|].
  destruct (Ascii.eqb ch sep); [discriminate|].
  destruct (split_char sep s); discriminate.
Qed.

Lemma join_cons_String sep ch w ws :
  join sep (String ch w :: ws) = String ch (join sep (w :: ws)).
Proof. destruct ws; reflexivity. Qed.

Lemma join_split sep s : join sep (split_char sep s) = s.
Proof.
  induction s as [|ch s IH]; [reflexivity|]. cbn [split_char].
  destruct (Ascii.eqb_spec ch sep) as [->|Hne].
  - destruct (split_char sep s) as [|w ws] eqn:E.
    + exfalso. exact (split_char_not_nil sep s E).
    + change (join sep ("" :: w :: ws)) with ("" ++ String sep (join sep (w :: ws))).
      rewrite IH. reflexivity.
  - destruct (split_char sep s) as [|w ws] eqn:E.
    + exfalso. exact (split_char_not_nil sep s E).
    + rewrite join_cons_String, IH. reflexivity.
Qed.

Lemma length_split_char sep s :
  List.length (split_char sep s) = count_char sep s + 1.
Proof.
  induction s as [|ch s IH]; [reflexivity|]. simpl.
  destruct (Ascii.eqb ch sep); simpl; [lia|].
  destruct (split_char sep s); simpl in *; lia.
Qed.

Lemma split_char_pieces sep s :
  Forall (fun w => count_char sep w = 0) (split_char sep s).
Proof.
  induction s as [|ch s IH]; simpl; [repeat constructor|].
  destruct (Ascii.eqb ch sep) eqn:E; [constructor; [reflexivity | exact IH]|].
  destruct (split_char sep s) as [|w ws].
  - constructor; [simpl; rewrite E; reflexivity | constructor].
  - inversion IH as [|? ? Hw Hws]; subst.
    constructor; [simpl; rewrite E; exact Hw | exact Hws].
Qed.

End SplitFacts.

Module BubbleFacts.
Import Split SplitFacts Bubble.

(** [formatContent] renders one line per newline-separated piece of the
    content: as many lines as newlines plus one, none containing a newline,
    and the lines joined with newlines give back the content. *)
Theorem formatContent_lines content :
  List.length (formatContent content) = count_char newline content + 1 /\
  Forall (fun line => count_char newline line = 0) (formatContent content) /\
  join newline (formatContent content) = content.
Proof.
  unfold formatContent.
  split; [apply length_split_char|].
  split; [apply split_char_pieces | apply join_split].
Qed.

End BubbleFacts.

Module NavigationFacts.
Import Js Split SplitFacts Navigation.

Lemma getItem_cons k a v ls :
  getItem k ((a, v) :: ls) = if String.eqb a k then Some v else getItem k ls.
Proof. unfold getItem. simpl. destruct (String.eqb a k); reflexivity. Qed.

Lemma removeItem_cons k a v ls :
  removeItem k ((a, v) :: ls) =
  if String.eqb a k then removeItem k ls else (a, v) :: removeItem k ls.
Proof. unfold removeItem. simpl. destruct (String.eqb a k); reflexivity. Qed.

Lemma getItem_removeItem k k' ls :
  getItem k (removeItem k' ls) = if String.eqb k k' then None else getItem k ls.
Proof.
  induction ls as [|[a v] ls IH]; [destruct (String.eqb k k'); reflexivity|].
  rewrite removeItem_cons, getItem_cons.
  destruct (String.eqb_spec a k') as [->|Ha].
  - rewrite IH. destruct (String.eqb_spec k k') as [->|]; [reflexivity|].
    destruct (String.eqb_spec k' k); [congruence | reflexivity].
  - rewrite getItem_cons, IH.
    destruct (String.eqb_spec a k) as [->|]; [|reflexivity].
    destruct (String.eqb_spec k k'); [congruence | reflexivity].
Qed.

Lemma truthy_or_default v d : truthy d = true -> truthy (or_default v d) = true.
Proof.
  intros Hd. destruct v as [x|]; simpl; [|exact Hd].
  destruct (truthy x) eqn:E; [exact E | exact Hd].
Qed.

Lemma truthy_user_display_name p : truthy (user_display_name p) = true.
Proof.
  destruct p as [[|n un|]|]; simpl; try reflexivity.
  apply truthy_or_default, truthy_or_default. reflexivity.
Qed.

(** Without a token, or with an empty one, [checkAuthStatus] logs the user
    out and clears the name, whatever user item is stored. *)
Theorem checkAuthStatus_no_token parse ls st :
  getItem "token" ls = None \/ getItem "token" ls = Some "" ->
  checkAuthStatus parse ls st = mkNavState (isMobileMenuOpen st) false None (route st).
Proof.
  unfold checkAuthStatus. intros [-> | ->]; reflexivity.
Qed.

Lemma checkAuthStatus_no_token_witness :
  checkAuthStatus (fun _ => Some UNull) [("user", "{}")] (mkNavState true true (Some (JStr "Ann")) "/home")
  = mkNavState true false None "/home".
Proof.
  apply (checkAuthStatus_no_token (fun _ => Some UNull) [("user", "{}")]
           (mkNavState true true (Some (JStr "Ann")) "/home")).
  left. reflexivity.
Defined.

Lemma checkAuthStatus_user_name parse ls st t u :
  getItem "token" ls = Some t -> t <> "" ->
  getItem "user" ls = Some u -> u <> "" ->
  checkAuthStatus parse ls st =
  mkNavState (isMobileMenuOpen st) true (Some (user_display_name (parse u))) (route st).
Proof.
  intros Ht Htne Hu Hune. unfold checkAuthStatus. rewrite Ht, Hu.
  assert (Et : str_truthy t = true)
    by (unfold str_truthy; destruct (String.eqb_spec t ""); [congruence | reflexivity]).
  assert (Eu : str_truthy u = true)
    by (unfold str_truthy; destruct (String.eqb_spec u ""); [congruence | reflexivity]).
  rewrite Et, Eu. reflexivity.
Qed.

(** With a non-empty token and a non-empty user item, the user is logged in
    and the name shown is never empty: the [name] field when truthy, else the
    [username] field when truthy, and ["User"] when the item is not JSON, is
    [null] or is not an object. *)
Theorem checkAuthStatus_user parse ls st t u :
  getItem "token" ls = Some t -> t <> "" ->
  getItem "user" ls = Some u -> u <> "" ->
  let st' := checkAuthStatus parse ls st in
  isLoggedIn st' = true /\
  exists v, userName st' = Some v /\ truthy v = true /\
    (forall n un, parse u = Some (UObject (Some n) un) -> truthy n = true -> v = n) /\
    (forall n un, parse u = Some (UObject n (Some un)) ->
       (forall x, n = Some x -> truthy x = false) -> truthy un = true -> v = un) /\
    (parse u = None \/ parse u = Some UNull \/ parse u = Some UOther -> v = JStr "User").
Proof.
  intros Ht Htne Hu Hune. unfold checkAuthStatus. rewrite Ht, Hu.
  assert (Et : str_truthy t = true)
    by (unfold str_truthy; destruct (String.eqb_spec t ""); [congruence | reflexivity]).
  assert (Eu : str_truthy u = true)
    by (unfold str_truthy; destruct (String.eqb_spec u ""); [congruence | reflexivity]).
  rewrite Et, Eu. simpl. split; [reflexivity|].
  exists (user_display_name (parse u)).
  split; [reflexivity|]. split; [apply truthy_user_display_name|].
  split; [|split].
  - intros n un -> Hn. unfold user_display_name, or_default. rewrite Hn. reflexivity.
  - intros n un -> Hn Hun. unfold user_display_name, or_default. destruct n as [x|].
    + rewrite (Hn x eq_refl), Hun. reflexivity.
    + rewrite Hun. reflexivity.
  - intros [-> | [-> | ->]]; reflexivity.
Qed.

Lemma checkAuthStatus_user_witness :
  userName (checkAuthStatus (fun _ => Some (UObject (Some (JStr "Ann Lee")) None))
              [("token", "abc"); ("user", "{}")] (mkNavState false false None "/"))
  = Some (JStr "Ann Lee").
Proof.
  destruct (checkAuthStatus_user (fun _ => Some (UObject (Some (JStr "Ann Lee")) None))
              [("token", "abc"); ("user", "{}")] (mkNavState false false None "/")
              "abc" "{}" eq_refl ltac:(discriminate) eq_refl ltac:(discriminate))
    as [_ (v & Hv & _ & Hn & _)].
  rewrite Hv, (Hn (JStr "Ann Lee") None eq_refl eq_refl). reflexivity.
Defined.

(** With a non-empty token but no user item, or an empty one, the user is
    logged in and the name shown before is kept. *)
Theorem checkAuthStatus_token_only parse ls st t :
  getItem "token" ls = Some t -> t <> "" ->
  getItem "user" ls = None \/ getItem "user" ls = Some "" ->
  checkAuthStatus parse ls st =
  mkNavState (isMobileMenuOpen st) true (userName st) (route st).
Proof.
  intros Ht Htne Hu. unfold checkAuthStatus. rewrite Ht.
  assert (Et : str_truthy t = true)
    by (unfold str_truthy; destruct (String.eqb_spec t ""); [congruence | reflexivity]).
  rewrite Et. destruct Hu as [-> | ->]; reflexivity.
Qed.

Lemma checkAuthStatus_token_only_witness :
  checkAuthStatus (fun _ => None) [("token", "abc")] (mkNavState false false (Some (JStr "Ann")) "/")
  = mkNavState false true (Some (JStr "Ann")) "/".
Proof.
  apply (checkAuthStatus_token_only (fun _ => None) [("token", "abc")]
           (mkNavState false false (Some (JStr "Ann")) "/") "abc" eq_refl).
  - discriminate.
  - left. reflexivity.
Defined.

(** [handleLogout] removes the token and user items and nothing else,
    closes the menu and goes to ["/"]; a later [checkAuthStatus] (the
    [storage] or [userLoggedIn] listener) keeps the user logged out. *)
Theorem logout_then_check parse ls st :
  let ls' := fst (handleLogout ls st) in
  let st' := snd (handleLogout ls st) in
  getItem "token" ls' = None /\ getItem "user" ls' = None /\
  (forall k, k <> "token" -> k <> "user" -> getItem k ls' = getItem k ls) /\
  st' = mkNavState false false None "/" /\
  checkAuthStatus parse ls' st' = mkNavState false false None "/".
Proof.
  simpl.
  assert (Ht : getItem "token" (removeItem "user" (removeItem "token" ls)) = None)
    by (rewrite !getItem_removeItem; reflexivity).
  split; [exact Ht|].
  split; [rewrite getItem_removeItem; reflexivity|].
  split; [|split; [reflexivity|]].
  - intros k Hk1 Hk2. rewrite !getItem_removeItem.
    destruct (String.eqb_spec k "user"); [congruence|].
    destruct (String.eqb_spec k "token"); [congruence|]. reflexivity.
  - unfold checkAuthStatus. rewrite Ht. reflexivity.
Qed.

(** At most one navigation item is highlighted for any path, and after
    [handleNavClick] on an item's link that item alone is highlighted, the
    mobile menu is closed and the login state is unchanged. *)
Theorem nav_click_highlights :
  (forall pathname, List.length (filter (isActive pathname) navItems) <= 1) /\
  (forall st name link, In (name, link) navItems ->
     let st' := handleNavClick link st in
     filter (isActive (route st')) navItems = [(name, link)] /\
     isMobileMenuOpen st' = false /\ isLoggedIn st' = isLoggedIn st /\
     userName st' = userName st).
Proof.
  split.
  - intros p. unfold isActive. simpl.
    repeat (match goal with |- context [String.eqb p ?l] =>
              destruct (String.eqb_spec p l) as [->|] end; simpl); auto.
  - intros st name link H. simpl in H.
    repeat destruct H as [H|H]; try contradiction; inversion H; subst;
      (split; [reflexivity | auto]).
Qed.

Lemma nav_click_highlights_witness :
  filter (isActive (route (handleNavClick "/home" (mkNavState true true None "/"))))
    navItems = [("Home", "/home")].
Proof.
  destruct nav_click_highlights as [_ H].
  exact (proj1 (H (mkNavState true true None "/") "Home" "/home" (or_introl eq_refl))).
Defined.

(** [firstName]: null for a missing or empty name; otherwise the text of a
    string name before its first space, which contains no space and is the
    whole name or the name up to a space. *)
Theorem firstName_prefix s :
  (s = "" -> firstName (Some (JStr s)) = FNull) /\
  (s <> "" -> exists f, firstName (Some (JStr s)) = FName f /\
     count_char space f = 0 /\
     (s = f \/ exists rest, s = f ++ String space rest)) /\
  firstName None = FNull.
Proof.
  split; [intros ->; reflexivity|]. split; [|reflexivity].
  intros Hs. unfold firstName. simpl.
  assert (E : str_truthy s = true)
    by (unfold str_truthy; destruct (String.eqb_spec s ""); [congruence | reflexivity]).
  rewrite E.
  pose proof (join_split space s) as J. pose proof (split_char_pieces space s) as P.
  destruct (split_char space s) as [|w ws] eqn:Sp;
    [exfalso; exact (split_char_not_nil space s Sp)|].
  exists w. split; [reflexivity|]. inversion P as [|? ? Pw _]; subst.
  split; [exact Pw|].
  destruct ws as [|w' ws]; [left; reflexivity|].
  right. exists (join space (w' :: ws)). reflexivity.
Qed.

Lemma firstName_prefix_witness :
  exists f, firstName (Some (JStr "Ann Lee")) = FName f /\ count_char space f = 0.
Proof.
  destruct (proj1 (proj2 (firstName_prefix "Ann Lee")) ltac:(discriminate))
    as (f & H1 & H2 & _).
  exists f. split; assumption.
Defined.

(** A stored user whose [name] is a non-zero number is shown as that number,
    and [firstName] then throws: a number has no [split]. *)
Theorem firstName_numeric_name_throws parse ls st t u z un :
  getItem "token" ls = Some t -> t <> "" ->
  getItem "user" ls = Some u -> u <> "" ->
  parse u = Some (UObject (Some (JNum z)) un) -> z <> 0%Z ->
  userName (checkAuthStatus parse ls st) = Some (JNum z) /\
  firstName (userName (checkAuthStatus parse ls st)) = FThrows.
Proof.
  intros Ht Htne Hu Hune Hp Hz.
  assert (Tz : truthy (JNum z) = true)
    by (simpl; destruct (Z.eqb_spec z 0); [congruence | reflexivity]).
  rewrite (checkAuthStatus_user_name parse ls st t u Ht Htne Hu Hune). simpl.
  assert (Ev : user_display_name (parse u) = JNum z)
    by (rewrite Hp; unfold user_display_name, or_default; rewrite Tz; reflexivity).
  rewrite Ev. split; [reflexivity|]. unfold firstName. rewrite Tz. reflexivity.
Qed.

Lemma firstName_numeric_name_throws_witness :
  firstName (userName (checkAuthStatus (fun _ => Some (UObject (Some (JNum 42)) None))
               [("token", "abc"); ("user", "user-record")] (mkNavState false false None "/")))
  = FThrows.
Proof.
  exact (proj2 (firstName_numeric_name_throws
    (fun _ => Some (UObject (Some (JNum 42)) None))
    [("token", "abc"); ("user", "user-record")] (mkNavState false false None "/")
    "abc" "user-record" 42%Z None eq_refl ltac:(discriminate) eq_refl
    ltac:(discriminate) eq_refl ltac:(discriminate))).
Defined.

End NavigationFacts.

Module TilesFacts.
Import Tiles.

Ltac grid_cells r c :=
  let Er := fresh "Er" in let Ec := fresh "Ec" in
  assert (Er : r = 0 \/ r = 1 \/ r = 2) by (unfold grid_rows in *; lia);
  assert (Ec : c = 0 \/ c = 1 \/ c = 2 \/ c = 3 \/ c = 4 \/ c = 5)
    by (unfold grid_cols in *; lia);
  destruct Er as [->|[->| ->]]; destruct Ec as [->|[->|[->|[->|[->| ->]]]]].

Fixpoint nodupb (l : list string) : bool :=
  match l with
  | [] => true
  | x :: l' => negb (existsb (String.eqb x) l') && nodupb l'
  end.

Lemma nodupb_NoDup l : nodupb l = true -> NoDup l.
Proof.
  induction l as [|x l IH]; simpl; [constructor|].
  intros H. apply andb_prop in H as [H1 H2]. constructor; [|exact (IH H2)].
  intros Hin. apply negb_true_iff in H1.
  assert (E : existsb (String.eqb x) l = true)
    by (apply existsb_exists; exists x; split; [exact Hin | apply String.eqb_refl]).
  congruence.
Qed.

Lemma same_cell_eq a b : same_cell a b = true <-> a = b.
Proof.
  destruct a as [a1 a2], b as [b1 b2]. unfold same_cell. simpl.
  rewrite andb_true_iff, !Nat.eqb_eq. split; [intros [-> ->]; reflexivity|].
  intros H; inversion H; split; reflexivity.
Qed.

Lemma positions_eq :
  positions = [(0,0); (0,1); (0,2); (0,3); (0,5); (1,0); (1,1); (1,3); (1,4);
               (1,5); (2,0); (2,2); (2,3); (2,5)].
Proof. reflexivity. Qed.

Lemma In_positions r c :
  In (r, c) positions <-> r < grid_rows /\ c < grid_cols /\ ~ In (r, c) GRADIENT_CELLS.
Proof.
  rewrite positions_eq. split.
  - intros H. simpl in H. repeat destruct H as [H|H]; try contradiction;
      inversion H; subst; unfold grid_rows, grid_cols;
      (split; [lia | split; [lia|]]); simpl;
      intros G; repeat destruct G as [G|G]; try discriminate; contradiction.
  - intros (Hr & Hc & Hg). grid_cells r c; simpl in *; tauto.
Qed.

Lemma positions_NoDup : NoDup positions.
Proof.
  rewrite positions_eq. repeat constructor;
    intros H; repeat destruct H as [H|H]; try discriminate; contradiction.
Qed.

Lemma length_mapi_from {A B} (f : nat -> A -> B) i l :
  List.length (mapi_from f i l) = List.length l.
Proof. revert i. induction l; simpl; auto. Qed.

Lemma map_mapi_from {A B C} (f : nat -> A -> B) (g : B -> C) (k : nat -> A -> C) i l :
  (forall j x, g (f j x) = k j x) ->
  map g (mapi_from f i l) = mapi_from k i l.
Proof. intros H. revert i. induction l; intros i; simpl; [|rewrite H, IHl]; reflexivity. Qed.

Lemma mapi_from_const {A C} (k : A -> C) i l :
  mapi_from (fun _ x => k x) i l = map k l.
Proof. revert i. induction l; intros i; simpl; [|rewrite IHl]; reflexivity. Qed.

Lemma mapi_from_index {A C} (k : nat -> C) i (l : list A) :
  mapi_from (fun j _ => k j) i l = map k (seq i (List.length l)).
Proof. revert i. induction l; intros i; simpl; [|rewrite IHl]; reflexivity. Qed.

(** The first [n] entries of a duplicate-free list: all defined, distinct. *)
Lemma nth_error_prefix (sh : list string) n :
  NoDup sh -> n <= List.length sh ->
  Forall (fun o => o <> None) (map (nth_error sh) (seq 0 n)) /\
  NoDup (map (nth_error sh) (seq 0 n)).
Proof.
  intros Hnd Hn. split.
  - apply (Forall_map (nth_error sh) (fun o => o <> None)), Forall_forall.
    intros j Hj. apply in_seq in Hj.
    apply nth_error_Some. lia.
  - apply NoDup_map_NoDup_ForallPairs; [|apply seq_NoDup].
    intros x y Hx Hy E. apply in_seq in Hx.
    exact (proj1 (NoDup_nth_error sh) Hnd x y ltac:(lia) E).
Qed.

Lemma append_inj_l (base x y : string) : base ++ x = base ++ y -> x = y.
Proof. induction base; simpl; [auto|]. intros H. inversion H. auto. Qed.

Lemma discoverImages_NoDup base :
  NoDup (discoverImages base) /\ List.length (discoverImages base) = 27.
Proof.
  assert (E : discoverImages base =
              map (append base) (map (fun i => "assets/tiles/" ++ tile_file i) (seq 0 27)))
    by (unfold discoverImages; rewrite map_map; reflexivity).
  rewrite E. split; [|rewrite !length_map; reflexivity].
  apply NoDup_map_NoDup_ForallPairs.
  - intros x y _ _ H. exact (append_inj_l base x y H).
  - apply nodupb_NoDup. vm_compute. reflexivity.
Qed.

(** The 27 tile images: distinct URLs whatever the base URL of the
    module, so a permutation of them has no repeated image. *)
Theorem discoverImages_distinct base shuffled :
  Permutation (discoverImages base) shuffled ->
  List.length shuffled = 27 /\ NoDup shuffled.
Proof.
  intros P. destruct (discoverImages_NoDup base) as [Hnd Hl].
  split; [rewrite <- (Permutation_length P); exact Hl | exact (Permutation_NoDup P Hnd)].
Qed.

Lemma discoverImages_distinct_witness :
  List.length (discoverImages "https://app.example/src/") = 27 /\
  NoDup (discoverImages "https://app.example/src/").
Proof.
  exact (discoverImages_distinct "https://app.example/src/" _ (Permutation_refl _)).
Defined.

Lemma init_tiles_positions sh : map position (init_tiles sh) = positions.
Proof.
  unfold init_tiles, mapi. rewrite (map_mapi_from _ _ (fun _ p => p)); [|reflexivity].
  rewrite mapi_from_const, map_id. reflexivity.
Qed.

Lemma init_tiles_srcs sh : map src (init_tiles sh) = map (nth_error sh) (seq 0 14).
Proof.
  unfold init_tiles, mapi.
  rewrite (map_mapi_from _ _ (fun j _ => nth_error sh j)); [|reflexivity].
  rewrite mapi_from_index. reflexivity.
Qed.

Lemma init_tiles_ids sh :
  map tile_id (init_tiles sh) =
  map (fun p => "tile-" ++ string_of_nat (fst p) ++ "-" ++ string_of_nat (snd p)) positions.
Proof.
  unfold init_tiles, mapi.
  rewrite (map_mapi_from _ _ (fun _ p => "tile-" ++ string_of_nat (fst p) ++ "-"
                                          ++ string_of_nat (snd p))); [|reflexivity].
  apply mapi_from_const.
Qed.

Lemma Forall_src_map (ts : list Tile) :
  Forall (fun o => o <> None) (map src ts) -> Forall (fun t => src t <> None) ts.
Proof. intros H. exact (proj1 (Forall_map src (fun o => o <> None) ts) H). Qed.

Lemma init_tiles_srcs_ok base shuffled :
  Permutation (discoverImages base) shuffled ->
  Forall (fun t => src t <> None) (init_tiles shuffled) /\
  NoDup (map src (init_tiles shuffled)).
Proof.
  intros P. destruct (discoverImages_NoDup base) as [Hnd Hl].
  rewrite (Permutation_length P) in Hl.
  destruct (nth_error_prefix shuffled 14 (Permutation_NoDup P Hnd) ltac:(lia)) as [Hs Hd].
  rewrite <- init_tiles_srcs in Hs, Hd.
  split; [apply Forall_src_map; exact Hs | exact Hd].
Qed.

(** The grid initialisation, for any order the random sort gives the
    images: one tile per cell of the 3 x 6 grid outside the four gradient
    cells, each cell once, with distinct ids, every tile showing an image
    and no image shown twice. *)
Theorem init_tiles_cover base shuffled :
  Permutation (discoverImages base) shuffled ->
  let tiles := init_tiles shuffled in
  map position tiles = positions /\
  (forall r c, In (r, c) positions <->
     r < grid_rows /\ c < grid_cols /\ ~ In (r, c) GRADIENT_CELLS) /\
  NoDup positions /\ NoDup (map tile_id tiles) /\
  Forall (fun t => src t <> None) tiles /\ NoDup (map src tiles).
Proof.
  intros P. destruct (init_tiles_srcs_ok base shuffled P) as [Hs Hd].
  split; [apply init_tiles_positions|]. split; [apply In_positions|].
  split; [apply positions_NoDup|].
  split; [rewrite init_tiles_ids; apply nodupb_NoDup; vm_compute; reflexivity|].
  split; [exact Hs | exact Hd].
Qed.

Lemma init_tiles_cover_witness :
  map position (init_tiles (discoverImages "https://app.example/src/")) = positions.
Proof.
  exact (proj1 (init_tiles_cover "https://app.example/src/" _ (Permutation_refl _))).
Defined.

Lemma shuffleTiles_fields sh prev :
  map tile_id (shuffleTiles sh prev) = map tile_id prev /\
  map position (shuffleTiles sh prev) = map position prev /\
  map src (shuffleTiles sh prev) = map (nth_error sh) (seq 0 (List.length prev)).
Proof.
  unfold shuffleTiles, mapi. split; [|split].
  - rewrite (map_mapi_from _ _ (fun _ t => tile_id t)); [|reflexivity].
    apply mapi_from_const.
  - rewrite (map_mapi_from _ _ (fun _ t => position t)); [|reflexivity].
    apply mapi_from_const.
  - rewrite (map_mapi_from _ _ (fun j _ => nth_error sh j)); [|reflexivity].
    apply mapi_from_index.
Qed.

Lemma shuffleTiles_srcs_ok images shuffled prev :
  NoDup images -> Permutation images shuffled ->
  List.length prev <= List.length images ->
  Forall (fun t => src t <> None) (shuffleTiles shuffled prev) /\
  NoDup (map src (shuffleTiles shuffled prev)).
Proof.
  intros Hnd P Hl. destruct (shuffleTiles_fields shuffled prev) as (_ & _ & Hs).
  rewrite (Permutation_length P) in Hl.
  destruct (nth_error_prefix shuffled (List.length prev) (Permutation_NoDup P Hnd) Hl)
    as [Hf Hd].
  rewrite <- Hs in Hf, Hd.
  split; [apply Forall_src_map; exact Hf | exact Hd].
Qed.

(** [shuffleTiles] with any order of the images: every tile keeps its id
    and its cell, and as long as there are at least as many distinct images
    as tiles, every tile shows an image and no image is shown twice. *)
Theorem shuffleTiles_keeps images shuffled prev :
  NoDup images -> Permutation images shuffled ->
  List.length prev <= List.length images ->
  let tiles := shuffleTiles shuffled prev in
  map tile_id tiles = map tile_id prev /\
  map position tiles = map position prev /\
  Forall (fun t => src t <> None) tiles /\ NoDup (map src tiles).
Proof.
  intros Hnd P Hl. destruct (shuffleTiles_fields shuffled prev) as (Hi & Hp & _).
  split; [exact Hi|]. split; [exact Hp|]. exact (shuffleTiles_srcs_ok _ _ _ Hnd P Hl).
Qed.

Lemma shuffleTiles_keeps_witness :
  map position (shuffleTiles (discoverImages "https://app.example/src/")
                  (init_tiles (discoverImages "https://app.example/src/"))) = positions.
Proof.
  destruct (shuffleTiles_keeps (discoverImages "https://app.example/src/")
              (discoverImages "https://app.example/src/")
              (init_tiles (discoverImages "https://app.example/src/"))
              (nodupb_NoDup (discoverImages "https://app.example/src/") ltac:(vm_compute; reflexivity)) (Permutation_refl _)
              ltac:(vm_compute; lia)) as (_ & Hp & _).
  rewrite Hp. apply init_tiles_positions.
Defined.

Lemma find_position (ts : list Tile) p :
  In p (map position ts) ->
  exists t, find (fun t => same_cell (position t) p) ts = Some t /\
            position t = p /\ In t ts.
Proof.
  induction ts as [|t ts IH]; simpl; [contradiction|]. intros H.
  destruct (same_cell (position t) p) eqn:E.
  - exists t. split; [reflexivity|]. split; [apply same_cell_eq; exact E | left; reflexivity].
  - destruct H as [H|H].
    + exfalso. rewrite <- H in E. rewrite (proj2 (same_cell_eq _ _) eq_refl) in E.
      discriminate.
    + destruct (IH H) as (t' & F & Pt & It). exists t'. auto.
Qed.

Lemma tiles_after_ticks_good base sh0 shs :
  Forall (Permutation (discoverImages base)) (sh0 :: shs) ->
  map position (tiles_after_ticks sh0 shs) = positions /\
  Forall (fun t => src t <> None) (tiles_after_ticks sh0 shs).
Proof.
  intros H. inversion H as [|? ? P0 Ps]; subst. clear H. unfold tiles_after_ticks.
  pose proof (init_tiles_positions sh0) as Hp.
  destruct (init_tiles_srcs_ok base sh0 P0) as [Hs _].
  revert Hp Hs. generalize (init_tiles sh0). induction Ps as [|sh shs P Ps IH];
    intros ts Hp Hs; cbn [fold_left]; [split; assumption|].
  destruct (discoverImages_NoDup base) as [Hnd Hl].
  assert (Hlen : List.length ts <= List.length (discoverImages base)).
  { rewrite Hl, <- (length_map position ts), Hp, positions_eq. simpl. lia. }
  destruct (shuffleTiles_fields sh ts) as (_ & Hp' & _).
  destruct (shuffleTiles_srcs_ok _ sh ts Hnd P Hlen) as [Hs' _].
  apply IH; [exact (eq_trans Hp' Hp) | exact Hs'].
Qed.

Lemma image_cell ts r c :
  map position ts = positions -> Forall (fun t => src t <> None) ts ->
  In (r, c) positions -> index_of_cell (r, c) GRADIENT_CELLS 0 = None ->
  exists t, cell_view ts r c = ImageCell (Some t) /\ position t = (r, c) /\ src t <> None.
Proof.
  intros Hp Hs Ip Ei. rewrite <- Hp in Ip.
  destruct (find_position _ _ Ip) as (t & F & Pt & It).
  exists t. unfold cell_view. rewrite Ei, F.
  split; [reflexivity | split; [exact Pt | exact (proj1 (Forall_forall _ _) Hs t It)]].
Qed.

(** [renderGrid] after the initialisation and any number of shuffles: 18
    cells, each of the four gradient cells showing its label and every
    other cell an image tile placed at that cell. *)
Theorem renderGrid_complete base sh0 shs :
  Forall (Permutation (discoverImages base)) (sh0 :: shs) ->
  let tiles := tiles_after_ticks sh0 shs in
  List.length (renderGrid tiles) = 18 /\
  forall r c, r < grid_rows -> c < grid_cols ->
    (exists i l, cell_view tiles r c = GradientCell i (Some l) /\
                 nth_error GRADIENT_CELLS i = Some (r, c)) \/
    (~ In (r, c) GRADIENT_CELLS /\
     exists t, cell_view tiles r c = ImageCell (Some t) /\
               position t = (r, c) /\ src t <> None).
Proof.
  intros H. destruct (tiles_after_ticks_good base sh0 shs H) as [Hp Hs].
  split; [reflexivity|]. intros r c Hr Hc.
  grid_cells r c;
    first [ left; eexists _, _; split; reflexivity
          | right; split;
            [ intros G; simpl in G; repeat destruct G as [G|G]; try discriminate;
              contradiction
            | apply image_cell; [exact Hp | exact Hs | simpl; tauto | reflexivity] ] ].
Qed.

Lemma renderGrid_complete_witness :
  List.length (renderGrid (tiles_after_ticks (discoverImages "https://app.example/src/") [])) = 18.
Proof.
  exact (proj1 (renderGrid_complete "https://app.example/src/"
    (discoverImages "https://app.example/src/") []
    (Forall_cons _ (Permutation_refl _) (Forall_nil _)))).
Defined.

End TilesFacts.

Module ChatFlowFacts.
Import Js Chat.
Local Open Scope list_scope.

Lemma trim_nonblank_truthy t : trim t <> "" -> str_truthy t = true.
Proof.
  intros H. unfold str_truthy. destruct (String.eqb_spec t "") as [->|]; [|reflexivity].
  exfalso. apply H. reflexivity.
Qed.

Lemma str_truthy_trim t : trim t <> "" -> str_truthy (trim t) = true.
Proof.
  intros H. unfold str_truthy. destruct (String.eqb_spec (trim t) ""); [congruence | reflexivity].
Qed.

(** While a send is in flight no other send starts, whatever is typed in the
    meantime and whatever the override; once it settles, the draft typed
    meanwhile is kept and, if not blank, is the next text sent. *)
Theorem send_in_flight now ts o a st text a' st' :
  handle_send_start now ts o a st = Started text a' st' ->
  (forall m now2 ts2 o2 a2,
     handle_send_start now2 ts2 o2 a2 (mkChatState m (isLoading st') (messages st')) = NoOp) /\
  (forall m now' ts' r now2 ts2, trim m <> "" ->
     let st'' := handle_send_settle now' ts' r (mkChatState m (isLoading st') (messages st')) in
     message st'' = m /\ isLoading st'' = false /\
     exists st3, handle_send_start now2 ts2 None "chat" st'' = Started m "chat" st3).
Proof.
  unfold handle_send_start at 1.
  destruct (negb _ || isLoading st); [discriminate|].
  intros H. inversion H; subst; clear H. simpl. split.
  - intros m now2 ts2 o2 a2. unfold handle_send_start. simpl.
    rewrite orb_true_r. reflexivity.
  - intros m now' ts' r now2 ts2 Hm. split; [reflexivity|]. split; [reflexivity|].
    unfold handle_send_start. simpl. rewrite (str_truthy_trim m Hm). simpl.
    eexists. reflexivity.
Qed.

Lemma send_in_flight_witness :
  handle_send_start 1 "9:00 AM" (Some "again") "chat"
    (mkChatState "typed" true [mkMessage 0 User (JStr "hi") "9:00 AM"]) = NoOp.
Proof.
  exact (proj1 (send_in_flight 0 "9:00 AM" None "chat" (mkChatState "hi" false [])
                  "hi" "chat" (mkChatState "" true [mkMessage 0 User (JStr "hi") "9:00 AM"])
                  eq_refl) "typed" 1 "9:00 AM" (Some "again") "chat").
Defined.

(** A quick action (a non-blank override) sends its own text and leaves the
    draft in the input as it was, even a blank one; a send from the input
    sends the draft and clears it. Both append the user message and set
    [isLoading]. *)
Theorem send_draft_handling now ts a st :
  (forall t, trim t <> "" -> isLoading st = false ->
     handle_send_start now ts (Some t) a st =
     Started t a (mkChatState (message st) true
                   (messages st ++ [mkMessage now User (JStr t) ts]))) /\
  (trim (message st) <> "" -> isLoading st = false ->
     handle_send_start now ts None a st =
     Started (message st) a (mkChatState "" true
                   (messages st ++ [mkMessage now User (JStr (message st)) ts]))).
Proof.
  split.
  - intros t Ht Hl. unfold handle_send_start, text_to_send.
    rewrite (trim_nonblank_truthy t Ht), (str_truthy_trim t Ht), Hl. reflexivity.
  - intros Ht Hl. unfold handle_send_start, text_to_send.
    rewrite (str_truthy_trim _ Ht), Hl. reflexivity.
Qed.

Lemma send_draft_handling_witness :
  handle_send_start 0 "9:00 AM" (Some "Analyze Audience Insights") "analyze_audience"
    (mkChatState "" false []) =
  Started "Analyze Audience Insights" "analyze_audience"
    (mkChatState "" true [mkMessage 0 User (JStr "Analyze Audience Insights") "9:00 AM"]).
Proof.
  exact (proj1 (send_draft_handling 0 "9:00 AM" "analyze_audience" (mkChatState "" false []))
           "Analyze Audience Insights" ltac:(vm_compute; discriminate) eq_refl).
Defined.

(** Shift+Enter in the Command Center input sends a non-blank draft when
    no send is in flight, as plain Enter does; the same keys in ChatInput
    do not reach [onSend]. Other keys send nothing in either. *)
Theorem shift_enter_sends now ts st :
  trim (message st) <> "" -> isLoading st = false ->
  command_center_key_press now ts "Enter" true st =
    handle_send_start now ts None "chat" st /\
  (exists text st', command_center_key_press now ts "Enter" true st = Started text "chat" st') /\
  chat_input_key_press "Enter" true (message st) (isLoading st) = false /\
  (forall key shift, key <> "Enter" ->
     command_center_key_press now ts key shift st = NoOp /\
     chat_input_key_press key shift (message st) (isLoading st) = false).
Proof.
  intros Ht Hl. split; [reflexivity|]. split.
  - exists (message st). eexists. unfold command_center_key_press. simpl.
    unfold handle_send_start, text_to_send.
    rewrite (str_truthy_trim _ Ht), Hl. reflexivity.
  - split; [reflexivity|]. intros key shift Hk.
    unfold command_center_key_press, chat_input_key_press.
    destruct (String.eqb_spec key "Enter"); [congruence|]. split; reflexivity.
Qed.

Lemma shift_enter_sends_witness :
  command_center_key_press 0 "9:00 AM" "Enter" true (mkChatState "hi" false []) =
  Started "hi" "chat" (mkChatState "" true [mkMessage 0 User (JStr "hi") "9:00 AM"]).
Proof.
  rewrite (proj1 (shift_enter_sends 0 "9:00 AM" (mkChatState "hi" false [])
                    ltac:(vm_compute; discriminate) eq_refl)).
  reflexivity.
Defined.

End ChatFlowFacts.
